(** * SQuAD_models: the FusionNet reader, its configuration and the cosine similarity

    A shallow embedding of
    - [drqa/reader/config.py]        (module [Config]),
    - [drqa/module/similarity_functions/cosine.py] (modules [Cosine] and
      [CosineBroadcast]),
    - [drqa/reader/fusionnet_reader.py] (modules [Shapes] and [Reader]).

    Tensors of floating-point numbers are read as tensors of real numbers:
    arithmetic is exact, [-inf] and [NaN] are written out where the code
    can produce them. *)

From Stdlib Require Import Reals Lra List ZArith.
From stdpp Require Import gmap strings list fin_maps.

(** ** drqa/reader/config.py *)

Module Config.

(** The index of arguments concerning the optimizer and the training. *)
Definition MODEL_OPTIMIZER : gset string :=
  list_to_set
    [ "fix_embeddings"; "optimizer"; "learning_rate"; "momentum"; "weight_decay";
      "rnn_padding"; "dropout_rnn"; "dropout_rnn_output"; "dropout_emb";
      "max_len"; "grad_clipping"; "tune_partial"; "learning_rate_scheduler";
      "learning_rate_patience"; "learning_rate_factor" ]%string.

(** Argument values, as far as [argparse] produces them for this parser. *)
Inductive value : Type :=
  | VNone
  | VBool (b : bool)
  | VInt (z : Z)
  | VStr (s : string)
  | VList (l : list string).

(** Python's [!=] on these values; [True == 1] and [False == 0]. *)
Definition py_ne (a b : value) : bool :=
  match a, b with
  | VNone, VNone => false
  | VBool x, VBool y => negb (Bool.eqb x y)
  | VBool x, VInt y | VInt y, VBool x => negb (Z.eqb (Z.b2z x) y)
  | VInt x, VInt y => negb (Z.eqb x y)
  | VStr x, VStr y => negb (String.eqb x y)
  | VList x, VList y => negb (bool_decide (x = y))
  | _, _ => true
  end.

Section Override.
(** The development is generic in the values and in their [!=]. *)
Context {V : Type}.
Variable ne : V → V → bool.

(** A namespace is the dict [vars(ns)]. *)
Abbreviation namespace := (gmap string V).

(** The body of the loop of [override_model_args], for the key [k]; the
    dict [old_args] is the one being mutated.  The two [logger.info]
    calls leave it as it is. *)
Definition override_key (new_args : namespace) (old_args : namespace)
    (k : string) : namespace :=
  match old_args !! k, new_args !! k with
  | Some o, Some n =>
      if ne o n then
        if bool_decide (k ∈ MODEL_OPTIMIZER) then <[k := n]> old_args
        else old_args
      else old_args
  | _, _ => old_args
  end.

(** [for k in old_args.keys(): ...] over the keys [ks]; the namespace
    returned is built from the dict as the loop leaves it. *)
Definition override_keys (new_args : namespace) (ks : list string)
    (old_args : namespace) : namespace :=
  foldl (override_key new_args) old_args ks.

Definition override_model_args (old_args new_args : namespace) : namespace :=
  override_keys new_args (map_to_list old_args).*1 old_args.

Lemma override_key_frame new_args old_args k j :
  j ∉ MODEL_OPTIMIZER →
  override_key new_args old_args k !! j = old_args !! j.
Proof.
  intros Hj. unfold override_key.
  destruct (old_args !! k) as [o|] eqn:Ho; [|done].
  destruct (new_args !! k) as [n|] eqn:Hn; [|done].
  destruct (ne o n); [|done].
  case_bool_decide as Hk; [|done].
  apply lookup_insert_ne. intros ->. contradiction.
Qed.

Lemma override_keys_frame new_args ks : ∀ old_args j,
  j ∉ MODEL_OPTIMIZER →
  override_keys new_args ks old_args !! j = old_args !! j.
Proof.
  unfold override_keys.
  induction ks as [|k ks IH]; intros old_args j Hj; simpl; [done|].
  rewrite IH by done. by apply override_key_frame.
Qed.

Lemma override_key_dom new_args old_args k :
  dom (override_key new_args old_args k) = dom old_args.
Proof.
  unfold override_key.
  destruct (old_args !! k) as [o|] eqn:Ho; [|done].
  destruct (new_args !! k) as [n|]; [|done].
  destruct (ne o n); [|done].
  case_bool_decide; [|done].
  rewrite dom_insert_L. apply subseteq_union_1_L.
  apply singleton_subseteq_l, elem_of_dom. eauto.
Qed.

Lemma override_keys_dom new_args ks : ∀ old_args,
  dom (override_keys new_args ks old_args) = dom old_args.
Proof.
  unfold override_keys.
  induction ks as [|k ks IH]; intros old_args; simpl; [done|].
  by rewrite IH, override_key_dom.
Qed.

(** C9: [override_model_args] changes only keys of [MODEL_OPTIMIZER]: a key
    of the saved namespace outside that set keeps its saved value in the
    returned namespace, whatever the new namespace assigns to it. *)
Theorem override_model_args_frame (old_args new_args : namespace)
    (k : string) (v : V) :
  k ∉ MODEL_OPTIMIZER →
  old_args !! k = Some v →
  override_model_args old_args new_args !! k = Some v.
Proof.
  intros Hk Hv. unfold override_model_args.
  by rewrite override_keys_frame.
Qed.
End Override.

(** A saved model and a new command line that disagree on the architecture
    and on the optimizer. *)
Definition saved_args : gmap string value :=
  <["hidden_size" := VInt 128]> (<["optimizer" := VStr "adamax"]> ∅).
Definition given_args : gmap string value :=
  <["hidden_size" := VInt 256]> (<["optimizer" := VStr "sgd"]> ∅).

Lemma hidden_size_not_optimizer : "hidden_size" ∉ MODEL_OPTIMIZER.
Proof. apply (bool_decide_unpack _). by vm_compute. Qed.

Lemma override_model_args_frame_witness :
  given_args !! "hidden_size" = Some (VInt 256) ∧
  override_model_args py_ne saved_args given_args !! "hidden_size"
    = Some (VInt 128).
Proof.
  split; [reflexivity|].
  apply (override_model_args_frame py_ne saved_args given_args
           "hidden_size" (VInt 128)).
  - exact hidden_size_not_optimizer.
  - reflexivity.
Defined.

(** The optimizer key, in contrast, is taken from the new namespace. *)
Example override_model_args_optimizer :
  override_model_args py_ne saved_args given_args !! "optimizer"
    = Some (VStr "sgd").
Proof. vm_compute. reflexivity. Qed.

(** *** What [override_model_args] does to every key *)

Section OverrideSpec.
Context {V : Type}.
Variable ne : V → V → bool.

(** The value of the key [k] after the loop, from its saved value [o] and its
new value [n]. *)
Definition override_value (k : string) (o n : option V) : option V :=
  match o, n with
  | Some ov, Some nv =>
      if ne ov nv && bool_decide (k ∈ MODEL_OPTIMIZER) then Some nv else Some ov
  | _, _ => o
  end.

Lemma override_key_same (new_args old_args : gmap string V) (k : string) :
  override_key ne new_args old_args k !! k
  = override_value k (old_args !! k) (new_args !! k).
Proof.
  unfold override_key, override_value.
  destruct (old_args !! k) as [o|] eqn:Ho; [|by rewrite Ho].
  destruct (new_args !! k) as [n|]; [|by rewrite Ho].
  destruct (ne o n); simpl; [|by rewrite Ho].
  case_bool_decide; [|by rewrite Ho]. apply lookup_insert_eq.
Qed.

Lemma override_key_other (new_args old_args : gmap string V) (k j : string) :
  k ≠ j → override_key ne new_args old_args k !! j = old_args !! j.
Proof.
  intros Hkj. unfold override_key.
  destruct (old_args !! k) as [o|]; [|done].
  destruct (new_args !! k) as [n|]; [|done].
  destruct (ne o n); [|done]. case_bool_decide; [|done].
  by apply lookup_insert_ne.
Qed.

Lemma override_keys_lookup (new_args : gmap string V) (ks : list string) :
  NoDup ks → ∀ (old_args : gmap string V) (k : string),
  override_keys ne new_args ks old_args !! k
  = if bool_decide (k ∈ ks)
    then override_value k (old_args !! k) (new_args !! k)
    else old_args !! k.
Proof.
  unfold override_keys.
  induction 1 as [|k0 ks Hk0 _ IH]; intros old_args k; [done|].
  cbn [foldl]. rewrite IH.
  destruct (decide (k = k0)) as [->|Hne].
  - rewrite (bool_decide_eq_false_2 (k0 ∈ ks)) by done.
    rewrite (bool_decide_eq_true_2 (k0 ∈ k0 :: ks))
      by (apply elem_of_cons; by left).
    apply override_key_same.
  - rewrite override_key_other by done.
    destruct (decide (k ∈ ks)) as [Hin|Hnin].
    + rewrite (bool_decide_eq_true_2 (k ∈ ks)) by done.
      by rewrite (bool_decide_eq_true_2 (k ∈ k0 :: ks))
        by (apply elem_of_cons; by right).
    + rewrite (bool_decide_eq_false_2 (k ∈ ks)) by done.
      rewrite (bool_decide_eq_false_2 (k ∈ k0 :: ks)); [done|].
      by intros [->|?]%elem_of_cons.
Qed.

(** The returned namespace, key by key. *)
Lemma override_model_args_lookup (old_args new_args : gmap string V)
    (k : string) :
  override_model_args ne old_args new_args !! k
  = override_value k (old_args !! k) (new_args !! k).
Proof.
  unfold override_model_args.
  rewrite override_keys_lookup by apply NoDup_fst_map_to_list.
  case_bool_decide as Hk; [done|].
  destruct (old_args !! k) as [o|] eqn:Ho; [|done].
  exfalso. apply Hk. apply list_elem_of_fmap. exists (k, o).
  split; [done|]. by apply elem_of_map_to_list.
Qed.
End OverrideSpec.

(** *** The other functions of config.py *)

Import Stdlib.Strings.Ascii.

Definition MODEL_ARCHITECTURE : gset string :=
  list_to_set
    [ "model_type"; "embedding_dim"; "hidden_size"; "doc_layers";
      "question_layers"; "rnn_type"; "concat_rnn_layers"; "question_merge";
      "use_qemb"; "use_in_question"; "use_pos"; "use_ner"; "use_lemma";
      "use_tf"; "use_cove" ]%string.

Definition BIDAF_ARCHITECTURE : gset string :=
  list_to_set
    [ "modeling_layers"; "span_end_encode_layers"; "use_char_emb";
      "char_embedding_dim"; "char_cnn_num_filters";
      "char_cnn_ngram_filter_sizes"; "highway_layers" ]%string.

Definition FUSIONNET_ARCHITECTURE : gset string :=
  list_to_set [ "use_cove"; "cove_embedding_dim"; "attention_size" ]%string.

Definition required_args : gset string :=
  MODEL_ARCHITECTURE ∪ MODEL_OPTIMIZER ∪ BIDAF_ARCHITECTURE
  ∪ FUSIONNET_ARCHITECTURE.

(** [get_model_args]: the dict comprehension over [vars(args).items()]. *)
Definition get_model_args {V : Type} (args : gmap string V) : gmap string V :=
  filter (λ kv, kv.1 ∈ required_args) args.

(** [str.lower] and [str.upper] on the characters of ASCII. *)
Definition lower_ascii (c : ascii) : ascii :=
  let n := nat_of_ascii c in
  if (65 <=? n) && (n <=? 90) then ascii_of_nat (n + 32) else c.

Definition upper_ascii (c : ascii) : ascii :=
  let n := nat_of_ascii c in
  if (97 <=? n) && (n <=? 122) then ascii_of_nat (n - 32) else c.

Fixpoint lower (s : string) : string :=
  match s with
  | EmptyString => EmptyString
  | String c s' => String (lower_ascii c) (lower s')
  end.

Fixpoint upper (s : string) : string :=
  match s with
  | EmptyString => EmptyString
  | String c s' => String (upper_ascii c) (upper s')
  end.

(** The string has characters of ASCII only. *)
Fixpoint is_ascii (s : string) : bool :=
  match s with
  | EmptyString => true
  | String c s' => (nat_of_ascii c <? 128) && is_ascii s'
  end.

(** [str2bool].  (A string with a character outside ASCII is in no case one
of the five words, before or after [lower].) *)
Definition str2bool (v : string) : bool :=
  bool_decide (lower v ∈ ["yes"; "true"; "t"; "1"; "y"]%string).

(** The option strings of the [add_argument] calls of [add_model_args], in
the order of the calls. *)
Definition add_model_args_options : list string :=
  [ "--model-type"; "--embedding-dim"; "--hidden-size"; "--doc-layers";
    "--question-layers"; "--rnn-type";
    "--concat-rnn-layers"; "--question-merge"; "--use-qemb";
    "--use-in-question"; "--use-pos"; "--use-ner"; "--use-lemma"; "--use-tf";
    "--use-cove"; "--cove-embedding-dim"; "--attention-size";
    "--modeling-layers"; "--span-end-encode-layers"; "--use-char-emb";
    "--char-embedding-dim"; "--char-cnn-num-filters";
    "--char-cnn-ngram-filter-sizes"; "--highway-layers";
    "--dropout-emb"; "--dropout-rnn"; "--dropout-rnn-output"; "--optimizer";
    "--learning-rate"; "--grad-clipping"; "--weight-decay"; "--momentum";
    "--fix-embeddings"; "--tune-partial"; "--rnn-padding"; "--max-len";
    "--learning-rate-scheduler"; "--learning-rate-factor";
    "--learning-rate-patience" ]%string.

(** The attribute under which [argparse] stores an option: the option string
without its leading dashes, the other dashes turned into underscores. *)
Fixpoint dashes_to_underscores (s : string) : string :=
  match s with
  | EmptyString => EmptyString
  | String c s' =>
      String (if Ascii.eqb c "-" then "_"%char else c) (dashes_to_underscores s')
  end.

Fixpoint strip_dashes (s : string) : string :=
  match s with
  | String c s' => if Ascii.eqb c "-" then strip_dashes s' else s
  | EmptyString => EmptyString
  end.

Definition dest (option : string) : string :=
  dashes_to_underscores (strip_dashes option).

Section OverrideProperties.
Context {V : Type}.
Variable ne : V → V → bool.

(** X1: an optimizer key that is in both namespaces with values that differ
takes the new value. *)
Theorem override_model_args_takes_new_optimizer_value
    (old_args new_args : gmap string V) (k : string) (o n : V) :
  k ∈ MODEL_OPTIMIZER →
  old_args !! k = Some o →
  new_args !! k = Some n →
  ne o n = true →
  override_model_args ne old_args new_args !! k = Some n.
Proof.
  intros Hk Ho Hn Hne. rewrite override_model_args_lookup, Ho, Hn.
  unfold override_value. by rewrite Hne, bool_decide_eq_true_2.
Qed.

(** X2: the returned namespace has exactly the keys of the saved one: a key
that only the new namespace has is not added, and no key is dropped. *)
Theorem override_model_args_keeps_keys (old_args new_args : gmap string V) :
  dom (override_model_args ne old_args new_args) = dom old_args.
Proof.
  apply set_eq. intros k. rewrite !elem_of_dom, override_model_args_lookup.
  unfold override_value.
  destruct (old_args !! k) as [o|]; [|done].
  destruct (new_args !! k) as [n|]; [|done].
  by destruct (ne o n && bool_decide (k ∈ MODEL_OPTIMIZER)).
Qed.

(** X3: a key that the new namespace does not have keeps its saved value,
also when it is an optimizer key. *)
Theorem override_model_args_missing_new_key
    (old_args new_args : gmap string V) (k : string) :
  new_args !! k = None →
  override_model_args ne old_args new_args !! k = old_args !! k.
Proof.
  intros Hn. rewrite override_model_args_lookup, Hn.
  unfold override_value. by destruct (old_args !! k).
Qed.

(** X4: overriding twice with the same new namespace is overriding once. *)
Theorem override_model_args_idempotent (old_args new_args : gmap string V) :
  override_model_args ne (override_model_args ne old_args new_args) new_args
  = override_model_args ne old_args new_args.
Proof.
  apply map_eq. intros k. rewrite !override_model_args_lookup.
  unfold override_value.
  destruct (old_args !! k) as [o|]; [|done].
  destruct (new_args !! k) as [n|]; [|done].
  destruct (ne o n) eqn:Hon; simpl.
  - case_bool_decide; simpl.
    + by destruct (ne n n).
    + by rewrite andb_false_r.
  - by rewrite Hon.
Qed.

(** X5: overriding a namespace with itself changes nothing, whatever [!=]
says of a value and itself. *)
Theorem override_model_args_self (args : gmap string V) :
  override_model_args ne args args = args.
Proof.
  apply map_eq. intros k. rewrite override_model_args_lookup.
  unfold override_value. destruct (args !! k) as [v|]; [|done].
  by destruct (ne v v && bool_decide (k ∈ MODEL_OPTIMIZER)).
Qed.

Lemma get_model_args_lookup (args : gmap string V) (k : string) :
  get_model_args args !! k
  = if bool_decide (k ∈ required_args) then args !! k else None.
Proof.
  unfold get_model_args. rewrite map_lookup_filter.
  destruct (args !! k) as [v|]; simpl.
  - case_bool_decide.
    + by rewrite option_guard_True.
    + by rewrite option_guard_False.
  - by case_bool_decide.
Qed.

(** X6: filtering the saved namespace with [get_model_args] before or after
[override_model_args] gives the same namespace. *)
Theorem get_model_args_override_commute (old_args new_args : gmap string V) :
  get_model_args (override_model_args ne old_args new_args)
  = override_model_args ne (get_model_args old_args) new_args.
Proof.
  apply map_eq. intros k.
  rewrite get_model_args_lookup, !override_model_args_lookup,
    get_model_args_lookup.
  by case_bool_decide.
Qed.
End OverrideProperties.

Lemma override_model_args_takes_new_optimizer_value_witness :
  override_model_args py_ne saved_args given_args !! "optimizer"
  = Some (VStr "sgd").
Proof.
  apply (override_model_args_takes_new_optimizer_value py_ne saved_args
           given_args "optimizer" (VStr "adamax") (VStr "sgd")).
  - apply (bool_decide_unpack _). by vm_compute.
  - reflexivity.
  - reflexivity.
  - reflexivity.
Defined.

Lemma override_model_args_missing_new_key_witness :
  override_model_args py_ne saved_args ∅ !! "optimizer"
  = saved_args !! "optimizer".
Proof.
  apply (override_model_args_missing_new_key py_ne saved_args ∅ "optimizer").
  reflexivity.
Defined.

(** The attributes of the options of [add_model_args] are the keys of the
four indices, no more and no less. *)
Lemma add_model_args_dests :
  list_to_set (dest <$> add_model_args_options) = required_args.
Proof.
  apply set_eq. intros k.
  unfold required_args, MODEL_ARCHITECTURE, MODEL_OPTIMIZER,
    BIDAF_ARCHITECTURE, FUSIONNET_ARCHITECTURE.
  rewrite !elem_of_union, !elem_of_list_to_set, <- !elem_of_app.
  match goal with
  | |- _ ∈ ?D ↔ _ ∈ ?L =>
      assert (H1 : D ⊆ L) by (apply (bool_decide_unpack _); by vm_compute);
      assert (H2 : L ⊆ D) by (apply (bool_decide_unpack _); by vm_compute)
  end.
  split; [apply H1|apply H2].
Qed.

(** X7: a namespace whose attributes are those of the options of
[add_model_args] goes through [get_model_args] unchanged: every option of
the parser is in one of the four indices, and the result has all the keys
of the indices. *)
Theorem get_model_args_keeps_parsed_options {V : Type}
    (args : gmap string V) :
  dom args = list_to_set (dest <$> add_model_args_options) →
  get_model_args args = args ∧ dom (get_model_args args) = required_args.
Proof.
  rewrite add_model_args_dests. intros Hdom.
  assert (E : get_model_args args = args).
  { apply map_eq. intros k. rewrite get_model_args_lookup.
    case_bool_decide as Hk; [done|].
    symmetry. apply not_elem_of_dom. by rewrite Hdom. }
  by rewrite E.
Qed.

Lemma get_model_args_keeps_parsed_options_witness :
  let args : gmap string value :=
    list_to_map ((λ o, (dest o, VNone)) <$> add_model_args_options) in
  get_model_args args = args ∧ dom (get_model_args args) = required_args.
Proof.
  apply (get_model_args_keeps_parsed_options
           (list_to_map ((λ o, (dest o, VNone)) <$> add_model_args_options))).
  rewrite dom_list_to_map_L. reflexivity.
Defined.

Lemma lower_upper_ascii (c : ascii) :
  lower_ascii (upper_ascii c) = lower_ascii c.
Proof. destruct c as [[] [] [] [] [] [] [] []]; reflexivity. Qed.

Lemma lower_upper (v : string) : lower (upper v) = lower v.
Proof.
  induction v as [|c v IH]; [done|]. cbn [upper lower].
  by rewrite lower_upper_ascii, IH.
Qed.

Lemma lower_lower_ascii (c : ascii) :
  lower_ascii (lower_ascii c) = lower_ascii c.
Proof. destruct c as [[] [] [] [] [] [] [] []]; reflexivity. Qed.

Lemma lower_lower (v : string) : lower (lower v) = lower v.
Proof.
  induction v as [|c v IH]; [done|]. cbn [lower].
  by rewrite lower_lower_ascii, IH.
Qed.

(** X8: [str2bool] does not look at the case of the letters: an ASCII string
written in upper case, or in lower case, is read as the string itself. *)
Theorem str2bool_ignores_case (v : string) :
  is_ascii v = true →
  str2bool (upper v) = str2bool v ∧ str2bool (lower v) = str2bool v.
Proof.
  intros _. unfold str2bool. by rewrite lower_upper, lower_lower.
Qed.

Lemma str2bool_ignores_case_witness :
  str2bool (upper "True") = str2bool "True" ∧
  str2bool (lower "True") = str2bool "True".
Proof. apply (str2bool_ignores_case "True"). reflexivity. Defined.

(** The words that are read as true, and a few that are not. *)
Example str2bool_words :
  str2bool "Yes" = true ∧ str2bool "TRUE" = true ∧ str2bool "1" = true ∧
  str2bool "no" = false ∧ str2bool "on" = false ∧ str2bool "" = false.
Proof. by vm_compute. Qed.

End Config.

(** ** Vectors and sequences of real numbers *)

Open Scope R_scope.

(** A vector along the last dimension, a sequence of such vectors (one item
    of a batch, [len * dim]) and a padding mask ([true] marks padding). *)
Abbreviation vec := (list R).
Abbreviation vseq := (list (list R)).
Abbreviation mask := (list bool).

(** [t.sum()] of a vector. *)
Definition Rsum (v : vec) : R := foldr Rplus 0 v.

(** Elementwise product and inner product of two vectors. *)
Definition vmul (u v : vec) : vec := zip_with Rmult u v.
Definition dot (u v : vec) : R := Rsum (vmul u v).

Lemma vmul_comm (u : vec) : ∀ v, vmul u v = vmul v u.
Proof.
  unfold vmul. induction u as [|a u IH]; intros [|b v]; simpl; try done.
  by rewrite IH, Rmult_comm.
Qed.

Lemma dot_comm (u v : vec) : dot u v = dot v u.
Proof. unfold dot. by rewrite vmul_comm. Qed.

(** ** drqa/module/similarity_functions/cosine.py *)

Module Cosine.

(** [t.norm(dim=-1, keepdim=True)]: the 2-norm of a vector. *)
Definition norm (v : vec) : R := sqrt (Rsum (vmul v v)).

(** [t / t.norm(dim=-1, keepdim=True)] on one vector.  The division is not
    guarded: by a zero norm it gives no finite numbers (every [0 / 0] is
    [NaN]), written [None].  The vector without entries has nothing to
    divide. *)
Definition normalize (v : vec) : option vec :=
  match v with
  | [] => Some []
  | _ :: _ =>
      if Req_dec_T (norm v) 0 then None
      else Some (map (λ x, x / norm v) v)
  end.

(** [(normalized_tensor_1 * normalized_tensor_2).sum(dim=-1)] on one pair of
    vectors of one length, as the vectors of two tensors of the same shape
    are; [None] is [NaN], which is equal to nothing.  (For two lengths that
    differ the code broadcasts a vector of length 1 and raises otherwise;
    that case is not modelled, and every statement below is about vectors
    of one length.) *)
Definition cosine (v1 v2 : vec) : option R :=
  match normalize v1, normalize v2 with
  | Some n1, Some n2 => Some (Rsum (vmul n1 n2))
  | _, _ => None
  end.

(** [CosineSimilarity.forward].  The computation runs along the last
    dimension only, so a tensor is read as the list of its vectors along
    that dimension, the leading dimensions flattened. *)
Definition forward (tensor_1 tensor_2 : list vec) : list (option R) :=
  zip_with cosine tensor_1 tensor_2.

(** Two tensors have the same shape. *)
Definition same_shape (t1 t2 : list vec) : Prop :=
  Forall2 (λ u v, length u = length v) t1 t2.

(** Equality of two results as [torch.equal] sees it: entry by entry, and
    [NaN] differs from everything. *)
Definition equal (r1 r2 : list (option R)) : Prop :=
  Forall2 (λ a b, ∃ c : R, a = Some c ∧ b = Some c) r1 r2.

Lemma cosine_comm (v1 v2 : vec) : cosine v1 v2 = cosine v2 v1.
Proof.
  unfold cosine.
  destruct (normalize v1) as [n1|], (normalize v2) as [n2|]; try done.
  by rewrite vmul_comm.
Qed.

Lemma norm_nil : norm [] = 0.
Proof. unfold norm. simpl. apply sqrt_0. Qed.

Lemma normalize_nonzero (v : vec) :
  norm v ≠ 0 → normalize v = Some (map (λ x, x / norm v) v).
Proof.
  intros H. unfold normalize. destruct v as [|x v].
  { by rewrite norm_nil in H. }
  by destruct (Req_dec_T (norm (x :: v)) 0).
Qed.

Lemma normalize_zero (v : vec) : v ≠ [] → norm v = 0 → normalize v = None.
Proof.
  intros Hv H. unfold normalize. destruct v as [|x v]; [done|].
  by destruct (Req_dec_T (norm (x :: v)) 0).
Qed.

Lemma cosine_defined (v1 v2 : vec) :
  norm v1 ≠ 0 → norm v2 ≠ 0 → ∃ c, cosine v1 v2 = Some c.
Proof.
  intros H1 H2. unfold cosine.
  rewrite !normalize_nonzero by done. eauto.
Qed.

(** A vector of norm zero makes the result [NaN]. *)
Lemma cosine_zero_norm (v1 v2 : vec) :
  v1 ≠ [] → norm v1 = 0 → cosine v1 v2 = None.
Proof. intros Hv H. unfold cosine. by rewrite normalize_zero. Qed.

(** C10: [CosineSimilarity.forward] is symmetric: for two tensors of equal
    shape whose vectors along the last dimension all have a nonzero norm,
    [forward t1 t2] equals [forward t2 t1]. *)
Theorem forward_symmetric (t1 t2 : list vec) :
  same_shape t1 t2 →
  Forall (λ v, norm v ≠ 0) t1 →
  Forall (λ v, norm v ≠ 0) t2 →
  equal (forward t1 t2) (forward t2 t1).
Proof.
  unfold same_shape, equal, forward.
  induction 1 as [|u v t1 t2 _ _ IH]; intros H1 H2; simpl; [constructor|].
  inversion_clear H1 as [|? ? Hu H1']. inversion_clear H2 as [|? ? Hv H2'].
  constructor; [|by apply IH].
  destruct (cosine_defined u v Hu Hv) as [c Hc].
  exists c. split; [done|]. by rewrite cosine_comm.
Qed.

Lemma norm_unit_x : norm [1; 0] = 1.
Proof.
  unfold norm, vmul, Rsum. simpl.
  replace (1 * 1 + (0 * 0 + 0)) with 1 by lra. apply sqrt_1.
Qed.

Lemma norm_unit_y : norm [0; 1] = 1.
Proof.
  unfold norm, vmul, Rsum. simpl.
  replace (0 * 0 + (1 * 1 + 0)) with 1 by lra. apply sqrt_1.
Qed.

Lemma forward_symmetric_witness :
  equal (forward [[1; 0]] [[0; 1]]) (forward [[0; 1]] [[1; 0]]).
Proof.
  apply (forward_symmetric [[1; 0]] [[0; 1]]).
  - repeat constructor.
  - repeat constructor. rewrite norm_unit_x. lra.
  - repeat constructor. rewrite norm_unit_y. lra.
Defined.

(** Outside the guarantee: with a zero vector the result is [NaN] and is
    not equal to itself. *)
Example forward_zero_vector :
  forward [[0]] [[1]] = [None] ∧ ¬ equal (forward [[0]] [[1]]) (forward [[1]] [[0]]).
Proof.
  assert (H0 : norm [0] = 0).
  { unfold norm, vmul, Rsum. simpl.
    replace (0 * 0 + 0) with 0 by lra. apply sqrt_0. }
  assert (E : forward [[0]] [[1]] = [None]).
  { unfold forward. simpl. by rewrite cosine_zero_norm. }
  split; [done|]. rewrite E. intros H.
  inversion H as [|? ? ? ? [c [Hc _]]]. discriminate.
Qed.

(** *** The value of the cosine *)

Lemma Rsum_squares_nonneg (v : vec) : 0 <= Rsum (vmul v v).
Proof.
  induction v as [|x v IH]; [simpl; lra|].
  change (0 <= x * x + Rsum (vmul v v)). nra.
Qed.

Lemma norm_nonneg (v : vec) : 0 <= norm v.
Proof. apply sqrt_pos. Qed.

Lemma norm_square (v : vec) : norm v * norm v = Rsum (vmul v v).
Proof. apply sqrt_sqrt, Rsum_squares_nonneg. Qed.

Lemma Rsum_squares_zero (v : vec) :
  Rsum (vmul v v) = 0 ↔ Forall (λ x, x = 0) v.
Proof.
  induction v as [|x v IH].
  - split; [constructor|reflexivity].
  - change (x * x + Rsum (vmul v v) = 0 ↔ Forall (λ x, x = 0) (x :: v)).
    pose proof (Rsum_squares_nonneg v) as Hv. split.
    + intros H. constructor; [nra|]. apply IH. nra.
    + intros H. inversion_clear H as [|? ? Hx Hv']. apply IH in Hv'. nra.
Qed.

(** The norm is zero for the vectors of zeros only. *)
Lemma norm_zero (v : vec) : norm v = 0 ↔ Forall (λ x, x = 0) v.
Proof.
  rewrite <- Rsum_squares_zero. unfold norm. split.
  - intros H. apply sqrt_eq_0; [apply Rsum_squares_nonneg|done].
  - intros ->. apply sqrt_0.
Qed.

Lemma vmul_div (a b : R) (u : vec) : ∀ v,
  a ≠ 0 → b ≠ 0 →
  Rsum (vmul (map (λ x, x / a) u) (map (λ x, x / b) v))
  = Rsum (vmul u v) / (a * b).
Proof.
  induction u as [|x u IH]; intros [|y v] Ha Hb;
    try (simpl; unfold Rdiv; lra).
  change (x / a * (y / b)
          + Rsum (vmul (map (λ x, x / a) u) (map (λ x, x / b) v))
          = (x * y + Rsum (vmul u v)) / (a * b)).
  rewrite IH by done. by field.
Qed.

(** X9: over the real numbers, for two vectors of one length and of nonzero
norm, [forward] is their inner product divided by the product of their
norms. *)
Theorem cosine_inner_product (v1 v2 : vec) :
  length v1 = length v2 →
  norm v1 ≠ 0 → norm v2 ≠ 0 →
  cosine v1 v2 = Some (dot v1 v2 / (norm v1 * norm v2)).
Proof.
  intros _ H1 H2. unfold cosine.
  rewrite !normalize_nonzero by done.
  by rewrite vmul_div.
Qed.

Lemma cosine_inner_product_witness :
  cosine [1; 0] [0; 1] = Some (dot [1; 0] [0; 1] / (norm [1; 0] * norm [0; 1])).
Proof.
  apply (cosine_inner_product [1; 0] [0; 1]).
  - reflexivity.
  - rewrite norm_unit_x. lra.
  - rewrite norm_unit_y. lra.
Defined.

(** X10: the cosine of a vector of nonzero norm with itself is 1. *)
Theorem cosine_self (v : vec) : norm v ≠ 0 → cosine v v = Some 1.
Proof.
  intros H. unfold cosine. rewrite !normalize_nonzero by done.
  rewrite vmul_div, <- norm_square by done. f_equal. by field.
Qed.

Lemma cosine_self_witness : cosine [1; 0] [1; 0] = Some 1.
Proof. apply (cosine_self [1; 0]). rewrite norm_unit_x. lra. Defined.

Lemma two_products (a : vec) : ∀ b,
  2 * Rsum (vmul a b) <= Rsum (vmul a a) + Rsum (vmul b b) ∧
  - (2 * Rsum (vmul a b)) <= Rsum (vmul a a) + Rsum (vmul b b).
Proof.
  induction a as [|x a IH]; intros [|y b].
  - simpl. lra.
  - pose proof (Rsum_squares_nonneg (y :: b)). simpl in *. lra.
  - pose proof (Rsum_squares_nonneg (x :: a)). simpl in *. lra.
  - destruct (IH b) as [IH1 IH2].
    change (2 * (x * y + Rsum (vmul a b))
              <= x * x + Rsum (vmul a a) + (y * y + Rsum (vmul b b)) ∧
            - (2 * (x * y + Rsum (vmul a b)))
              <= x * x + Rsum (vmul a a) + (y * y + Rsum (vmul b b))).
    pose proof (Rle_0_sqr (x - y)) as Hm. pose proof (Rle_0_sqr (x + y)) as Hp.
    unfold Rsqr in Hm, Hp. split; lra.
Qed.

Lemma normalize_unit (v n : vec) :
  normalize v = Some n → Rsum (vmul n n) = 1 ∨ n = [].
Proof.
  intros H. destruct (Req_dec_T (norm v) 0) as [H0|H0].
  - destruct v as [|x v]; [injection H as <-; by right|].
    by rewrite normalize_zero in H.
  - rewrite normalize_nonzero in H by done. injection H as <-. left.
    rewrite vmul_div, <- norm_square by done. by field.
Qed.

Lemma normalize_unit_le (v n : vec) :
  normalize v = Some n → Rsum (vmul n n) <= 1.
Proof.
  intros [->| ->]%normalize_unit; simpl; lra.
Qed.

(** X11: over the real numbers, for two vectors of one length, whenever the
result is a number it lies between -1 and 1. *)
Theorem cosine_bounds (v1 v2 : vec) (c : R) :
  length v1 = length v2 →
  cosine v1 v2 = Some c → -1 <= c <= 1.
Proof.
  intros _. unfold cosine.
  destruct (normalize v1) as [n1|] eqn:E1; [|done].
  destruct (normalize v2) as [n2|] eqn:E2; [|done].
  intros [= <-].
  pose proof (normalize_unit_le _ _ E1). pose proof (normalize_unit_le _ _ E2).
  destruct (two_products n1 n2). lra.
Qed.

Lemma cosine_unit_x : cosine [1; 0] [1; 0] = Some 1.
Proof.
  unfold cosine, normalize. rewrite norm_unit_x.
  destruct (Req_dec_T 1 0) as [|_]; [lra|].
  unfold vmul, Rsum. simpl. f_equal. lra.
Qed.

Lemma cosine_bounds_witness : -1 <= 1 <= 1.
Proof. exact (cosine_bounds [1; 0] [1; 0] 1 eq_refl cosine_unit_x). Defined.

Lemma norm_scale (c : R) (v : vec) :
  0 <= c → norm (map (Rmult c) v) = c * norm v.
Proof.
  intros Hc. unfold norm.
  assert (E : Rsum (vmul (map (Rmult c) v) (map (Rmult c) v))
              = c * c * Rsum (vmul v v)).
  { induction v as [|x v IH]; [simpl; lra|].
    change (c * x * (c * x) + Rsum (vmul (map (Rmult c) v) (map (Rmult c) v))
            = c * c * (x * x + Rsum (vmul v v))).
    rewrite IH. lra. }
  rewrite E, sqrt_mult by (try apply Rsum_squares_nonneg; nra).
  by rewrite sqrt_square.
Qed.

(** X12: over the real numbers, for two vectors of one length, the result
does not change when a vector is multiplied by a positive number. *)
Theorem cosine_scale (c : R) (v1 v2 : vec) :
  length v1 = length v2 →
  0 < c → cosine (map (Rmult c) v1) v2 = cosine v1 v2.
Proof.
  intros _ Hc. unfold cosine.
  assert (E : normalize (map (Rmult c) v1) = normalize v1);
    [|by rewrite E].
  destruct (decide (v1 = [])) as [->|Hne]; [done|].
  assert (Hne' : map (Rmult c) v1 ≠ []) by (by destruct v1).
  pose proof (norm_scale c v1 ltac:(lra)) as Hn.
  destruct (Req_dec_T (norm v1) 0) as [H0|H0].
  - rewrite (normalize_zero v1), normalize_zero; try done.
    rewrite Hn, H0. lra.
  - rewrite (normalize_nonzero v1), normalize_nonzero by (rewrite ?Hn; nra).
    f_equal. rewrite map_map, Hn. apply map_ext. intros y. field. lra.
Qed.

Lemma cosine_scale_witness : cosine (map (Rmult 2) [1; 0]) [0; 1] = cosine [1; 0] [0; 1].
Proof. apply (cosine_scale 2 [1; 0] [0; 1]); [reflexivity|lra]. Defined.

(** X13: over the real numbers, for two vectors of one length that are not
empty, the result is [NaN] exactly when one of them has zeros only. *)
Theorem cosine_nan (v1 v2 : vec) :
  length v1 = length v2 →
  v1 ≠ [] → v2 ≠ [] →
  cosine v1 v2 = None ↔
  Forall (λ x, x = 0) v1 ∨ Forall (λ x, x = 0) v2.
Proof.
  intros _ Hv1 Hv2. rewrite <- !norm_zero. unfold cosine.
  destruct (Req_dec_T (norm v1) 0) as [H1|H1].
  { rewrite (normalize_zero v1) by done. tauto. }
  rewrite (normalize_nonzero v1) by done.
  destruct (Req_dec_T (norm v2) 0) as [H2|H2].
  { rewrite (normalize_zero v2) by done. tauto. }
  rewrite (normalize_nonzero v2) by done.
  split; [done|]. intros [?|?]; done.
Qed.

Lemma cosine_nan_witness :
  cosine [0; 0] [1; 0] = None ↔
  Forall (λ x, x = 0) [0; 0] ∨ Forall (λ x, x = 0) [1; 0].
Proof. apply (cosine_nan [0; 0] [1; 0]); [reflexivity|discriminate..]. Defined.

End Cosine.

(** ** The exceptions a forward pass can raise *)

Inductive error : Type :=
  | AttributeError   (* an attribute of the module that was never set *)
  | IndexError       (* an index out of range *)
  | RuntimeError.    (* a size mismatch between tensors or with a layer *)

Inductive result (A : Type) : Type :=
  | Ok (a : A)
  | Raise (e : error).
Arguments Ok {A} a.
Arguments Raise {A} e.

#[global] Instance result_ret : MRet result := λ A a, Ok a.
#[global] Instance result_bind : MBind result := λ A B f m,
  match m with Ok a => f a | Raise e => Raise e end.

(** [self.name] for an attribute that [__init__] sets only on some paths. *)
Definition getattr {A : Type} (o : option A) : result A :=
  match o with Some a => Ok a | None => Raise AttributeError end.

(** ** cosine.py on vectors of two lengths

    The product of the two normalised tensors broadcasts: along the last
    dimension a vector of length 1 is repeated to the length of the other
    vector, and two other lengths that differ raise. *)

Module CosineBroadcast.
Import Cosine.

(** [v.expand(n)] along the last dimension: a vector of length 1 is
    repeated [n] times. *)
Definition expand (n : nat) (v : vec) : vec :=
  match v with
  | [x] => repeat x n
  | _ => v
  end.

(** The two lengths can be broadcast together. *)
Definition broadcastable (v1 v2 : vec) : bool :=
  bool_decide (length v1 = length v2)
  || bool_decide (length v1 = 1%nat) || bool_decide (length v2 = 1%nat).

(** The length of the product of two vectors that can be broadcast
    together. *)
Definition product_length (v1 v2 : vec) : nat :=
  if bool_decide (length v1 = 1%nat) then length v2 else length v1.

(** [CosineSimilarity.forward] on one pair of vectors of any two lengths:
    [(normalized_tensor_1 * normalized_tensor_2).sum(dim=-1)], where the
    product raises for two lengths that cannot be broadcast together, and
    the sum of a product without entries is 0. *)
Definition forward_pair (v1 v2 : vec) : result (option R) :=
  if broadcastable v1 v2 then
    let n := product_length v1 v2 in
    match n with
    | O => Ok (Some 0)
    | S _ =>
        match normalize v1, normalize v2 with
        | Some n1, Some n2 => Ok (Some (Rsum (vmul (expand n n1) (expand n n2))))
        | _, _ => Ok None
        end
    end
  else Raise RuntimeError.

Lemma broadcastable_comm (v1 v2 : vec) :
  broadcastable v1 v2 = broadcastable v2 v1.
Proof.
  unfold broadcastable.
  destruct (bool_decide_reflect (length v1 = length v2)) as [E|E];
    destruct (bool_decide_reflect (length v2 = length v1)) as [E'|E'];
    try congruence; simpl; [done|].
  by destruct (bool_decide (length v1 = 1%nat)),
    (bool_decide (length v2 = 1%nat)).
Qed.

Lemma product_length_comm (v1 v2 : vec) :
  broadcastable v1 v2 = true → product_length v1 v2 = product_length v2 v1.
Proof.
  unfold broadcastable, product_length. intros H.
  repeat case_bool_decide; simpl in *; congruence.
Qed.

Lemma normalize_length (v n : vec) : normalize v = Some n → length n = length v.
Proof.
  unfold normalize. destruct v as [|x v]; [by intros [= <-]|].
  destruct (Req_dec_T _ 0); [done|]. intros [= <-]. simpl.
  by rewrite length_map.
Qed.

Lemma expand_same (v : vec) : expand (length v) v = v.
Proof. by destruct v as [|x [|y v]]. Qed.

Lemma norm_3_4 : norm [3; 4] = 5.
Proof.
  unfold norm, vmul, Rsum. simpl.
  apply sqrt_lem_1; lra.
Qed.

Lemma norm_1 : norm [1] = 1.
Proof.
  unfold norm, vmul, Rsum. simpl.
  replace (1 * 1 + 0) with 1 by lra. apply sqrt_1.
Qed.

(** X23: [CosineSimilarity.forward] on vectors of any two lengths, over the
real numbers.  It is symmetric in all its outcomes; on two vectors of one
length it returns the cosine; on two lengths that differ and are both
more than 1 it raises; and a vector of length 1 is broadcast: [3; 4] and
[1] give 7/5, which is more than 1. *)
Theorem forward_pair_broadcast :
  (∀ v1 v2, forward_pair v1 v2 = forward_pair v2 v1) ∧
  (∀ v1 v2, length v1 = length v2 → forward_pair v1 v2 = Ok (cosine v1 v2)) ∧
  (∀ v1 v2,
     (1 < length v1)%nat → (1 < length v2)%nat → length v1 ≠ length v2 →
     forward_pair v1 v2 = Raise RuntimeError) ∧
  forward_pair [3; 4] [1] = Ok (Some (7 / 5)).
Proof.
  split; [|split; [|split]].
  - intros v1 v2. unfold forward_pair.
    rewrite (broadcastable_comm v2 v1).
    destruct (broadcastable v1 v2) eqn:Hb; [|done].
    rewrite (product_length_comm v2 v1) by (by rewrite broadcastable_comm).
    destruct (product_length v1 v2) as [|n]; [done|].
    destruct (normalize v1) as [n1|], (normalize v2) as [n2|]; try done.
    by rewrite vmul_comm.
  - intros v1 v2 Hlen. unfold forward_pair, broadcastable, product_length.
    rewrite (bool_decide_eq_true_2 _ Hlen). cbn [orb].
    assert (Hn : (if bool_decide (length v1 = 1%nat) then length v2
                  else length v1) = length v1)
      by (case_bool_decide; congruence).
    rewrite Hn. unfold cosine.
    destruct (length v1) as [|k] eqn:El.
    { apply length_zero_iff_nil in El as ->. symmetry in Hlen.
      by apply length_zero_iff_nil in Hlen as ->. }
    destruct (normalize v1) as [n1|] eqn:E1; [|done].
    destruct (normalize v2) as [n2|] eqn:E2; [|done].
    apply normalize_length in E1, E2.
    assert (X1 : expand (S k) n1 = n1).
    { replace (S k) with (length n1) by congruence. apply expand_same. }
    assert (X2 : expand (S k) n2 = n2).
    { replace (S k) with (length n2) by congruence. apply expand_same. }
    by rewrite X1, X2.
  - intros v1 v2 H1 H2 Hne. unfold forward_pair, broadcastable.
    rewrite !bool_decide_eq_false_2 by lia. done.
  - unfold forward_pair, broadcastable, product_length. simpl.
    unfold normalize. rewrite norm_3_4, norm_1.
    destruct (Req_dec_T 5 0) as [|_]; [lra|].
    destruct (Req_dec_T 1 0) as [|_]; [lra|].
    unfold vmul, Rsum. simpl. do 2 f_equal. lra.
Qed.

Lemma forward_pair_broadcast_witness :
  length [1; 0] = length [0; 1] ∧
  forward_pair [1; 0] [0; 1] = Ok (cosine [1; 0] [0; 1]).
Proof.
  split; [reflexivity|].
  apply (proj1 (proj2 forward_pair_broadcast) [1; 0] [0; 1]). reflexivity.
Defined.

End CosineBroadcast.

(** ** drqa/reader/fusionnet_reader.py, on shapes

    [FusionNetReader.__init__] and [FusionNetReader.forward] read on the
    shapes of the tensors: every layer keeps the sizes it was built with and
    its forward pass checks the sizes of what it is given against them. *)

Module Shapes.
Local Open Scope nat_scope.

Abbreviation shape := (list nat).

(** The options [__init__] and [forward] read from [args]. *)
Record Args : Type := {
  vocab_size : nat;
  embedding_dim : nat;
  num_features : nat;
  hidden_size : nat;
  doc_layers : nat;
  question_layers : nat;
  attention_size : nat;
  cove_embedding_dim : nat;
  use_cove : bool;
  use_qemb : bool;
  concat_rnn_layers : bool;
  rnn_padding : bool;
}.

Definition check (b : bool) : result unit :=
  if b then Ok () else Raise RuntimeError.

(** *** torch *)

(** [torch.cat(ts, dim=2)]: tensors of rank 3 that agree on the first two
    dimensions. *)
Fixpoint cat2 (ts : list shape) : result shape :=
  match ts with
  | [] => Raise RuntimeError
  | [[b; l; d]] => Ok [b; l; d]
  | [b; l; d] :: ts' =>
      s ← cat2 ts';
      match s with
      | [b'; l'; d'] =>
          _ ← check ((b =? b') && (l =? l')); Ok [b; l; d + d']
      | _ => Raise RuntimeError
      end
  | _ => Raise RuntimeError
  end.

(** [t.squeeze()]: every dimension of size 1 is removed. *)
Definition squeeze_all (t : shape) : shape := filter (λ n, n ≠ 1) t.

(** [t.squeeze(i)]: dimension [i] is removed if its size is 1. *)
Definition squeeze (i : nat) (t : shape) : shape :=
  match t !! i with
  | Some 1 => take i t ++ drop (S i) t
  | _ => t
  end.

(** [t.unsqueeze(i)]. *)
Definition unsqueeze (i : nat) (t : shape) : result shape :=
  if i <=? length t then Ok (take i t ++ 1 :: drop i t) else Raise IndexError.

(** [t.sum(1)]. *)
Definition sum1 (t : shape) : result shape :=
  match t with
  | b :: _ :: t' => Ok (b :: t')
  | _ => Raise IndexError
  end.

(** [nn.Embedding(num_embeddings, embedding_dim, padding_idx=0)]: the
    constructor zeroes row 0 of the weight, which has to exist. *)
Record Embedding : Type := {
  num_embeddings : nat;
  emb_dim : nat;
}.

Definition Embedding_init (n d : nat) : result Embedding :=
  if n =? 0 then Raise IndexError
  else Ok {| num_embeddings := n; emb_dim := d |}.

Definition Embedding_forward (m : Embedding) (x : shape) : result shape :=
  Ok (x ++ [emb_dim m]).

(** [nn.GRU(input_size, hidden_size, batch_first=True)], one layer, one
    direction. *)
Record GRU : Type := {
  gru_input_size : nat;
  gru_hidden_size : nat;
}.

Definition GRU_forward (m : GRU) (input h0 : shape) : result (shape * shape) :=
  match input, h0 with
  | [b; t; d], [n; b'; h] =>
      _ ← check ((d =? gru_input_size m) && (n =? 1) && (b' =? b)
                 && (h =? gru_hidden_size m));
      Ok ([b; t; h], [1; b; h])
  | _, _ => Raise RuntimeError
  end.

(** *** cove *)

(** [MTLSTM()] of the CoVe package, built without a vocabulary: a
    two-layer bidirectional LSTM from 300 to 300 units. *)
Inductive MTLSTM : Type := MTLSTM_init.

Definition MTLSTM_forward (m : MTLSTM) (inputs lengths : shape) : result shape :=
  match inputs with
  | [b; l; d] => _ ← check (d =? 300); Ok [b; l; 600]
  | _ => Raise RuntimeError
  end.

(** *** drqa/reader/layers.py *)

(** Modelled from the spec: [layers.StackedBRNN], which is not among
    the source files.  "given an input tensor [batch, len, in_dim] and a
    padding mask, produce [batch, len, 2*hidden] ... Output dimension:
    2*hidden_size per layer (bidirectional), 2*hidden_size*num_layers if
    concatenating layers." *)
Record StackedBRNN : Type := {
  input_size : nat;
  rnn_hidden_size : nat;
  num_layers : nat;
  concat_layers : bool;
}.

(** Modelled from the spec: the output dimension of [layers.StackedBRNN],
    "2*hidden_size per layer (bidirectional), 2*hidden_size*num_layers if
    concatenating layers". *)
Definition StackedBRNN_output_size (m : StackedBRNN) : nat :=
  if concat_layers m then 2 * rnn_hidden_size m * num_layers m
  else 2 * rnn_hidden_size m.

(** Modelled from the spec: the forward pass of [layers.StackedBRNN], on
    shapes. *)
Definition StackedBRNN_forward (m : StackedBRNN) (x x_mask : shape)
    : result shape :=
  match x with
  | [b; l; d] =>
      _ ← check (d =? input_size m); Ok [b; l; StackedBRNN_output_size m]
  | _ => Raise RuntimeError
  end.

(** Modelled from the spec: [layers.SymBilinearAttnMatch(input_size,
    attention_size)], which is not among the source files.  Both
    sequences are projected by the shared matrix [W] of [input_size] rows;
    the output is the weighted sum over the value sequence, of "shape
    [batch, len_A, value_dim]". *)
Record SymBilinearAttnMatch : Type := {
  attn_input_size : nat;
  attn_size : nat;
}.

(** Modelled from the spec: the forward pass of
    [layers.SymBilinearAttnMatch], on shapes. *)
Definition SymBilinearAttnMatch_forward (m : SymBilinearAttnMatch)
    (x y y_mask values : shape) : result shape :=
  match x, y, y_mask, values with
  | [b; l1; d1], [b2; l2; d2], [b3; l3], [b4; l4; v] =>
      _ ← check ((d1 =? attn_input_size m) && (d2 =? attn_input_size m));
      _ ← check ((b2 =? b) && (b3 =? b) && (b4 =? b));
      _ ← check ((l3 =? l2) && (l4 =? l2));
      Ok [b; l1; v]
  | _, _, _, _ => Raise RuntimeError
  end.

(** Modelled from the spec: [layers.SeqAttnMatch(input_size)], the
    attention-weighted question embedding given to the document encoder;
    it is not among the source files.  One vector of the size of
    a question embedding for every document position. *)
Definition SeqAttnMatch_forward (size : nat) (x y y_mask : shape)
    : result shape :=
  match x, y, y_mask with
  | [b; l1; d1], [b2; l2; d2], [b3; l3] =>
      _ ← check ((d1 =? size) && (d2 =? size));
      _ ← check ((b2 =? b) && (b3 =? b) && (l3 =? l2));
      Ok [b; l1; d2]
  | _, _, _ => Raise RuntimeError
  end.

(** Modelled from the spec: [layers.LinearSeqAttn(input_size)], "a single
    linear scoring function produces per-position weights normalized
    (softmax, masking padding) across the question sequence"; it is
    not among the source files. *)
Definition LinearSeqAttn_forward (size : nat) (x x_mask : shape)
    : result shape :=
  match x, x_mask with
  | [b; l; d], [b2; l2] =>
      _ ← check ((d =? size) && (b2 =? b) && (l2 =? l)); Ok [b; l]
  | _, _ => Raise RuntimeError
  end.

(** Modelled from the spec: [layers.weighted_avg(x, weights)], "the weighted
    average - a single vector per batch item"; it is not among the source
    files. *)
Definition weighted_avg (x weights : shape) : result shape :=
  match x, weights with
  | [b; l; d], [b2; l2] => _ ← check ((b2 =? b) && (l2 =? l)); Ok [b; d]
  | _, _ => Raise RuntimeError
  end.

(** Modelled from the spec: [layers.BilinearSeqAttn(x_size, y_size)],
    "bilinear score between each document position's fused hidden state and
    the pooled question vector, softmax-normalized over document positions
    (masking document padding)"; it is not among the source files.  The
    vector [y] of size [y_size] is mapped to size [x_size] and multiplied
    with every position of [x]. *)
Record BilinearSeqAttn : Type := {
  x_size : nat;
  y_size : nat;
}.

(** Modelled from the spec: the forward pass of [layers.BilinearSeqAttn],
    on shapes. *)
Definition BilinearSeqAttn_forward (m : BilinearSeqAttn) (x y x_mask : shape)
    : result shape :=
  match x, y, x_mask with
  | [b; l; d], [b2; dy], [b3; l3] =>
      _ ← check (dy =? y_size m);
      _ ← check ((d =? x_size m) && (b2 =? b));
      _ ← check ((b3 =? b) && (l3 =? l));
      Ok [b; l]
  | _, _, _ => Raise RuntimeError
  end.

(** *** FusionNetReader *)

Record FusionNetReader : Type := {
  args : Args;
  embedding : Embedding;
  cove_encoder : option MTLSTM;
  qemb_match : option nat;
  reading_low_level_doc_rnn : StackedBRNN;
  reading_low_level_question_rnn : StackedBRNN;
  reading_high_level_doc_rnn : StackedBRNN;
  reading_high_level_question_rnn : StackedBRNN;
  understanding_question_rnn : StackedBRNN;
  low_level_matrix_attention_layer : SymBilinearAttnMatch;
  high_level_matrix_attention_layer : SymBilinearAttnMatch;
  understanding_matrix_attention_layer : SymBilinearAttnMatch;
  multi_level_rnn : StackedBRNN;
  self_boosted_matrix_attention_layer : SymBilinearAttnMatch;
  understanding_doc_rnn : StackedBRNN;
  question_self_attn : nat;
  start_attn : BilinearSeqAttn;
  start_gru : GRU;
  end_attn : BilinearSeqAttn;
}.

Section Init.
(** [__init__] never passes [concat_layers] to [layers.StackedBRNN]; the
    default of that keyword is a parameter here. *)
Variable concat_layers_default : bool.

Definition StackedBRNN_init (input hidden layers : nat) : StackedBRNN :=
  {| input_size := input; rnn_hidden_size := hidden; num_layers := layers;
     concat_layers := concat_layers_default |}.

(** [FusionNetReader.__init__]. *)
Definition __init__ (args : Args) : result FusionNetReader :=
  (* Word embeddings (+1 for padding) *)
  embedding ← Embedding_init (vocab_size args) (embedding_dim args);
  let cove_encoder :=
    if use_cove args && (embedding_dim args =? 300)
    then Some MTLSTM_init else None in
  let qemb_match :=
    if use_qemb args then Some (embedding_dim args) else None in
  (* Input size to RNN: word emb + cove emb + manual features + question emb *)
  let doc_input_size := embedding_dim args + num_features args in
  let question_input_size := embedding_dim args in
  let doc_input_size :=
    if use_cove args then doc_input_size + 2 * cove_embedding_dim args
    else doc_input_size in
  let question_input_size :=
    if use_cove args then question_input_size + 2 * cove_embedding_dim args
    else question_input_size in
  let doc_input_size :=
    if use_qemb args then doc_input_size + embedding_dim args
    else doc_input_size in
  let history_of_word_size :=
    embedding_dim args + 2 * cove_embedding_dim args + 4 * hidden_size args in
  let history_of_doc_word_size :=
    history_of_word_size + 4 * 2 * hidden_size args in
  (* Output sizes of rnn *)
  let doc_hidden_size := 2 * hidden_size args in
  let question_hidden_size := 2 * hidden_size args in
  let doc_hidden_size :=
    if concat_rnn_layers args then doc_hidden_size * doc_layers args
    else doc_hidden_size in
  let question_hidden_size :=
    if concat_rnn_layers args then question_hidden_size * question_layers args
    else question_hidden_size in
  Ok {|
    args := args;
    embedding := embedding;
    cove_encoder := cove_encoder;
    qemb_match := qemb_match;
    reading_low_level_doc_rnn :=
      StackedBRNN_init doc_input_size (hidden_size args) 1;
    reading_low_level_question_rnn :=
      StackedBRNN_init question_input_size (hidden_size args) 1;
    reading_high_level_doc_rnn :=
      StackedBRNN_init (hidden_size args * 2) (hidden_size args) 1;
    reading_high_level_question_rnn :=
      StackedBRNN_init (hidden_size args * 2) (hidden_size args) 1;
    understanding_question_rnn :=
      StackedBRNN_init (hidden_size args * 4) (hidden_size args) 1;
    low_level_matrix_attention_layer :=
      {| attn_input_size := history_of_word_size;
         attn_size := attention_size args |};
    high_level_matrix_attention_layer :=
      {| attn_input_size := history_of_word_size;
         attn_size := attention_size args |};
    understanding_matrix_attention_layer :=
      {| attn_input_size := history_of_word_size;
         attn_size := attention_size args |};
    multi_level_rnn :=
      StackedBRNN_init (hidden_size args * 2 * 5) (hidden_size args) 1;
    self_boosted_matrix_attention_layer :=
      {| attn_input_size := history_of_doc_word_size;
         attn_size := attention_size args |};
    understanding_doc_rnn :=
      StackedBRNN_init (hidden_size args * 2 * 2) (hidden_size args) 1;
    question_self_attn := question_hidden_size;
    start_attn := {| x_size := doc_hidden_size; y_size := question_hidden_size |};
    start_gru := {| gru_input_size := doc_hidden_size;
                    gru_hidden_size := hidden_size args * 2 |};
    end_attn := {| x_size := doc_hidden_size; y_size := question_hidden_size |};
  |}.
End Init.

(** [FusionNetReader.forward] on shapes.  [F.dropout], [torch.log] and
    [add] keep the shape of their argument and are left out. *)
Definition forward (self : FusionNetReader)
    (x1 x1_f x1_mask x2 x2_mask : shape) : result (shape * shape) :=
  (* Embed both document and question *)
  x1_word_emb ← Embedding_forward (embedding self) x1;
  x2_word_emb ← Embedding_forward (embedding self) x2;
  x1_lengths ← sum1 x1_mask;
  let x1_lengths := squeeze_all x1_lengths in
  x2_lengths ← sum1 x2_mask;
  let x2_lengths := squeeze_all x2_lengths in
  enc ← getattr (cove_encoder self);
  x1_cove_emb ← MTLSTM_forward enc x1_word_emb x1_lengths;
  x2_cove_emb ← MTLSTM_forward enc x2_word_emb x2_lengths;
  x1_emb ← cat2 [x1_word_emb; x1_cove_emb];
  x2_emb ← cat2 [x2_word_emb; x2_cove_emb];
  (* Form document encoding inputs *)
  let drnn_input := [x1_emb] in
  (* Add attention-weighted question representation *)
  drnn_input ←
    (if use_qemb (args self) then
       size ← getattr (qemb_match self);
       x2_weighted_emb ← SeqAttnMatch_forward size x1_word_emb x2_word_emb x2_mask;
       Ok (drnn_input ++ [x2_weighted_emb])
     else Ok drnn_input);
  (* Add manual features *)
  let drnn_input :=
    if 0 <? num_features (args self) then drnn_input ++ [x1_f] else drnn_input in
  drnn_in ← cat2 drnn_input;
  low_level_doc_hiddens ←
    StackedBRNN_forward (reading_low_level_doc_rnn self) drnn_in x1_mask;
  low_level_question_hiddens ←
    StackedBRNN_forward (reading_low_level_question_rnn self) x2_emb x2_mask;
  high_level_doc_hiddens ←
    StackedBRNN_forward (reading_high_level_doc_rnn self) low_level_doc_hiddens x1_mask;
  high_level_question_hiddens ←
    StackedBRNN_forward (reading_high_level_question_rnn self)
      low_level_question_hiddens x2_mask;
  uq_in ← cat2 [low_level_question_hiddens; high_level_question_hiddens];
  understanding_question_hiddens ←
    StackedBRNN_forward (understanding_question_rnn self) uq_in x2_mask;
  history_of_doc_word ←
    cat2 [x1_word_emb; x1_cove_emb; low_level_doc_hiddens; high_level_doc_hiddens];
  history_of_question_word ←
    cat2 [x2_word_emb; x2_cove_emb; low_level_question_hiddens;
          low_level_question_hiddens];
  low_level_doc_question_vectors ←
    SymBilinearAttnMatch_forward (low_level_matrix_attention_layer self)
      history_of_doc_word history_of_question_word x2_mask
      low_level_question_hiddens;
  high_level_doc_question_vectors ←
    SymBilinearAttnMatch_forward (high_level_matrix_attention_layer self)
      history_of_doc_word history_of_question_word x2_mask
      high_level_question_hiddens;
  understanding_doc_question_vectors ←
    SymBilinearAttnMatch_forward (understanding_matrix_attention_layer self)
      history_of_doc_word history_of_question_word x2_mask
      understanding_question_hiddens;
  (* Encode multi-level hiddens and vectors *)
  ml_in ← cat2 [low_level_doc_hiddens; high_level_doc_hiddens;
                low_level_doc_question_vectors; high_level_doc_question_vectors;
                understanding_doc_question_vectors];
  fa_multi_level_doc_hiddens ←
    StackedBRNN_forward (multi_level_rnn self) ml_in x1_mask;
  history_of_doc_word2 ←
    cat2 [x1_word_emb; x1_cove_emb; low_level_doc_hiddens; high_level_doc_hiddens;
          low_level_doc_question_vectors; high_level_doc_question_vectors;
          understanding_doc_question_vectors; fa_multi_level_doc_hiddens];
  self_boosted_vectors ←
    SymBilinearAttnMatch_forward (self_boosted_matrix_attention_layer self)
      history_of_doc_word2 history_of_doc_word2 x1_mask fa_multi_level_doc_hiddens;
  (* Encode vectors and hiddens *)
  ud_in ← cat2 [fa_multi_level_doc_hiddens; self_boosted_vectors];
  understanding_doc_hiddens ←
    StackedBRNN_forward (understanding_doc_rnn self) ud_in x1_mask;
  q_merge_weights ←
    LinearSeqAttn_forward (question_self_attn self)
      understanding_question_hiddens x2_mask;
  question_hidden ← weighted_avg understanding_question_hiddens q_merge_weights;
  (* Predict start and end positions *)
  start_scores ←
    BilinearSeqAttn_forward (start_attn self) understanding_doc_hiddens
      question_hidden x1_mask;
  gru_input ← weighted_avg understanding_doc_hiddens start_scores;
  gru_input ← unsqueeze 1 gru_input;
  question_hidden ← unsqueeze 0 question_hidden;
  '(_, memory_hidden) ← GRU_forward (start_gru self) gru_input question_hidden;
  let memory_hidden := squeeze 0 memory_hidden in
  end_scores ←
    BilinearSeqAttn_forward (end_attn self) understanding_doc_hiddens
      memory_hidden x1_mask;
  Ok (start_scores, end_scores).

(** The default options of [config.add_model_args], with the options that
    the training script sets ([vocab_size], [num_features]). *)
Definition default_args : Args := {|
  vocab_size := 1000; embedding_dim := 300; num_features := 4;
  hidden_size := 128; doc_layers := 3; question_layers := 3;
  attention_size := 250; cove_embedding_dim := 300;
  use_cove := false; use_qemb := true; concat_rnn_layers := true;
  rnn_padding := false |}.

(** *** What [forward] returns *)

Lemma check_true (c : bool) : c = true → check c = Ok ().
Proof. by intros ->. Qed.

(** Discharges the next size check of a forward pass by arithmetic. *)
Ltac check_sizes :=
  match goal with
  | |- context [check ?c] =>
      rewrite (check_true c)
        by (rewrite ?andb_true_iff, ?Nat.eqb_eq; repeat split; lia);
      cbn [mbind result_bind]
  end.

(** The configurations on which the sizes of [__init__] fit the tensors of
    [forward]: CoVe in use with its 300 + 600 dimensions, and the decoder
    sized for encoders of one layer. *)
Definition well_sized (a : Args) : Prop :=
  vocab_size a ≠ 0 ∧
  use_cove a = true ∧ embedding_dim a = 300 ∧ cove_embedding_dim a = 300 ∧
  (concat_rnn_layers a = true → doc_layers a = 1 ∧ question_layers a = 1).

Lemma init_ok (dflt : bool) (a : Args) :
  vocab_size a ≠ 0 → ∃ self, __init__ dflt a = Ok self ∧ args self = a.
Proof.
  intros Hv. unfold __init__, Embedding_init.
  destruct (Nat.eqb_spec (vocab_size a) 0) as [|_]; [done|].
  cbn [mbind result_bind]. eauto.
Qed.

(** On a well-sized configuration [forward] returns two tensors of shape
    [batch, len_d]. *)
Lemma forward_well_sized (dflt : bool) (a : Args) (b ld lq : nat) :
  well_sized a →
  ∃ self, __init__ dflt a = Ok self ∧
    forward self [b; ld] [b; ld; num_features a] [b; ld] [b; lq] [b; lq]
      = Ok ([b; ld], [b; ld]).
Proof.
  intros (Hv & Hc & He & Hd & Hl).
  destruct a as [vs ed nf h dl ql att cd uc uq cr rp];
    cbn [vocab_size use_cove embedding_dim cove_embedding_dim concat_rnn_layers
         doc_layers question_layers num_features] in *.
  subst uc.
  assert (Hdl : (if cr then 2 * h * dl else 2 * h) = 2 * h).
  { destruct cr; [destruct Hl as [-> _]; [done|]|]; lia. }
  assert (Hql : (if cr then 2 * h * ql else 2 * h) = 2 * h).
  { destruct cr; [destruct Hl as [_ ->]; [done|]|]; lia. }
  unfold __init__, Embedding_init.
  cbn -[Nat.mul Nat.add Nat.eqb Nat.ltb].
  destruct (Nat.eqb_spec vs 0) as [|_]; [done|].
  cbn -[Nat.mul Nat.add Nat.eqb Nat.ltb].
  rewrite Hdl, Hql. eexists; split; [reflexivity|].
  assert (E300 : (ed =? 300) = true) by (apply Nat.eqb_eq; lia).
  rewrite E300.
  unfold forward, getattr, StackedBRNN_init, StackedBRNN_output_size,
    MTLSTM_forward, Embedding_forward.
  cbn -[Nat.mul Nat.add Nat.eqb Nat.ltb check cat2].
  destruct uq, (Nat.ltb_spec 0 nf), dflt;
    repeat (cbn -[Nat.mul Nat.add Nat.eqb Nat.ltb check]; try check_sizes);
    reflexivity.
Qed.

Lemma init_without_cove (dflt : bool) (a : Args) (self : FusionNetReader) :
  use_cove a = false → __init__ dflt a = Ok self → cove_encoder self = None.
Proof.
  intros Hc. unfold __init__.
  destruct (Embedding_init _ _) as [e|]; cbn [mbind result_bind]; [|done].
  rewrite Hc. by intros [= <-].
Qed.

(** Without the CoVe encoder no input at all gets through [forward]. *)
Lemma forward_without_cove_never_returns (self : FusionNetReader)
    (x1 x1_f x1_mask x2 x2_mask : shape) (r : shape * shape) :
  cove_encoder self = None →
  forward self x1 x1_f x1_mask x2 x2_mask ≠ Ok r.
Proof.
  intros Hc. unfold forward, Embedding_forward. cbn [mbind result_bind].
  destruct (sum1 x1_mask); cbn [mbind result_bind]; [|done].
  destruct (sum1 x2_mask); cbn [mbind result_bind]; [|done].
  by rewrite Hc.
Qed.

(** C3, where the code departs from the claim: with the contextual (CoVe)
    embeddings disabled, [__init__] builds no [cove_encoder], and [forward],
    which reads [self.cove_encoder] on every call, raises [AttributeError]
    on every input of the call contract instead of returning scores. *)
Theorem forward_without_cove_raises (dflt : bool) (a : Args)
    (self : FusionNetReader) (b ld lq : nat) :
  use_cove a = false →
  __init__ dflt a = Ok self →
  forward self [b; ld] [b; ld; num_features a] [b; ld] [b; lq] [b; lq]
    = Raise AttributeError.
Proof.
  intros Hc Hi. unfold forward, Embedding_forward.
  by rewrite (init_without_cove dflt a self Hc Hi).
Qed.

Lemma forward_without_cove_raises_witness :
  use_cove default_args = false ∧
  ∃ self, __init__ false default_args = Ok self ∧
    forward self [2; 5] [2; 5; 4] [2; 5] [2; 3] [2; 3] = Raise AttributeError.
Proof.
  split; [reflexivity|]. eexists. split; [vm_compute; reflexivity|].
  apply (forward_without_cove_raises false default_args _ 2 5 3);
    reflexivity.
Defined.

(** The default options with CoVe switched on, a document encoder counted
    as three layers and a question encoder counted as one. *)
Definition three_layer_args : Args := {|
  vocab_size := 1000; embedding_dim := 300; num_features := 4;
  hidden_size := 128; doc_layers := 3; question_layers := 1;
  attention_size := 250; cove_embedding_dim := 300;
  use_cove := true; use_qemb := true; concat_rnn_layers := true;
  rnn_padding := false |}.

(** C4, where the code departs from the claim: with [concat_rnn_layers] and
    [doc_layers = 3] the decoder is built for document hidden states of size
    [2 * hidden_size * doc_layers = 768], while the final document encoder
    [understanding_doc_rnn] has one layer and returns size
    [2 * hidden_size = 256]; on a batch of 2 documents of 5 tokens and
    questions of 3 tokens [forward] raises a size mismatch instead of
    returning two tensors of shape [2, 5]. *)
Theorem forward_concat_layers_size_mismatch (dflt : bool) :
  ∃ self, __init__ dflt three_layer_args = Ok self ∧
    x_size (start_attn self) = 768 ∧
    gru_input_size (start_gru self) = 768 ∧
    x_size (end_attn self) = 768 ∧
    StackedBRNN_output_size (understanding_doc_rnn self) = 256 ∧
    forward self [2; 5] [2; 5; 4] [2; 5] [2; 3] [2; 3] = Raise RuntimeError.
Proof.
  destruct dflt; eexists; (split; [vm_compute; reflexivity|]);
    repeat split; vm_compute; reflexivity.
Qed.

(** With the layer counts at 1 the same options go through. *)
Example forward_one_layer :
  ∃ self,
    __init__ false
      {| vocab_size := 1000; embedding_dim := 300; num_features := 4;
         hidden_size := 128; doc_layers := 1; question_layers := 1;
         attention_size := 250; cove_embedding_dim := 300;
         use_cove := true; use_qemb := true; concat_rnn_layers := true;
         rnn_padding := false |} = Ok self ∧
    forward self [2; 5] [2; 5; 4] [2; 5] [2; 3] [2; 3] = Ok ([2; 5], [2; 5]).
Proof. eexists; split; vm_compute; reflexivity. Qed.

(** *** The configurations that go through *)

(** X14: with the CoVe embeddings switched on but word embeddings of another
dimension than 300, [__init__] builds no [cove_encoder] either, and
[forward] raises [AttributeError]. *)
Theorem forward_cove_other_embedding_dim (dflt : bool) (a : Args)
    (self : FusionNetReader) (b ld lq : nat) :
  use_cove a = true →
  embedding_dim a ≠ 300 →
  __init__ dflt a = Ok self →
  forward self [b; ld] [b; ld; num_features a] [b; ld] [b; lq] [b; lq]
    = Raise AttributeError.
Proof.
  intros Hc He. unfold __init__.
  destruct (Embedding_init _ _) as [e|]; cbn [mbind result_bind]; [|done].
  rewrite Hc. destruct (Nat.eqb_spec (embedding_dim a) 300) as [|_]; [done|].
  intros [= <-]. reflexivity.
Qed.

(** The default options with CoVe switched on and word embeddings of
dimension 100. *)
Definition small_embedding_args : Args := {|
  vocab_size := 1000; embedding_dim := 100; num_features := 4;
  hidden_size := 128; doc_layers := 3; question_layers := 3;
  attention_size := 250; cove_embedding_dim := 300;
  use_cove := true; use_qemb := true; concat_rnn_layers := true;
  rnn_padding := false |}.

Lemma forward_cove_other_embedding_dim_witness :
  ∃ self, __init__ false small_embedding_args = Ok self ∧
    forward self [2; 5] [2; 5; 4] [2; 5] [2; 3] [2; 3] = Raise AttributeError.
Proof.
  eexists. split; [vm_compute; reflexivity|].
  apply (forward_cove_other_embedding_dim false small_embedding_args _ 2 5 3).
  - reflexivity.
  - simpl. lia.
  - reflexivity.
Defined.

(** The options of [forward_one_layer]. *)
Definition one_layer_args : Args := {|
  vocab_size := 1000; embedding_dim := 300; num_features := 4;
  hidden_size := 128; doc_layers := 1; question_layers := 1;
  attention_size := 250; cove_embedding_dim := 300;
  use_cove := true; use_qemb := true; concat_rnn_layers := true;
  rnn_padding := false |}.

(** Reads the next size check of a forward pass that returned. *)
Ltac read_check H :=
  match type of H with
  | context [check ?c] =>
      let E := fresh "E" in
      destruct c eqn:E;
      [ change (check true) with (@Ok unit ()) in H
      | change (check false) with (@Raise unit RuntimeError) in H ];
      cbn -[Nat.mul Nat.add Nat.eqb Nat.ltb check] in H; [|discriminate H];
      rewrite ?andb_true_iff, ?Nat.eqb_eq in E
  end.

(** For a hidden size that is not 0, [forward] returns on an input of the
call contract only if the configuration is well sized. *)
Lemma forward_returns_well_sized (dflt : bool) (a : Args)
    (self : FusionNetReader) (b ld lq : nat) (r : shape * shape) :
  hidden_size a ≠ 0 →
  __init__ dflt a = Ok self →
  forward self [b; ld] [b; ld; num_features a] [b; ld] [b; lq] [b; lq] = Ok r →
  well_sized a.
Proof.
  intros Hh Hi Hf.
  destruct a as [vs ed nf h dl ql att cd uc uq cr rp];
    cbn [vocab_size use_cove embedding_dim cove_embedding_dim concat_rnn_layers
         doc_layers question_layers num_features hidden_size] in *.
  unfold __init__, Embedding_init in Hi.
  cbn -[Nat.mul Nat.add Nat.eqb Nat.ltb] in Hi.
  destruct (Nat.eqb_spec vs 0) as [|Hvs]; [done|].
  cbn -[Nat.mul Nat.add Nat.eqb Nat.ltb] in Hi. injection Hi as <-.
  unfold forward, getattr, StackedBRNN_init, StackedBRNN_output_size,
    MTLSTM_forward, Embedding_forward in Hf.
  cbn -[Nat.mul Nat.add Nat.eqb Nat.ltb check cat2] in Hf.
  destruct uc; [|discriminate Hf].
  destruct (Nat.eqb_spec ed 300) as [He|_]; [|discriminate Hf].
  cbn -[Nat.mul Nat.add Nat.eqb Nat.ltb check cat2] in Hf.
  assert (Hout : ∀ i, StackedBRNN_output_size
                        {| input_size := i; rnn_hidden_size := h;
                           num_layers := 1; concat_layers := dflt |} = 2 * h).
  { intros i. unfold StackedBRNN_output_size. destruct dflt; simpl; lia. }
  assert (Hsizes : cd = 300 ∧ (cr = true → dl = 1 ∧ ql = 1)).
  { destruct uq, (Nat.ltb_spec 0 nf);
      cbn -[Nat.mul Nat.add Nat.eqb Nat.ltb check] in Hf;
      repeat read_check Hf; rewrite ?Hout in *; clear Hf Hout;
      repeat match goal with H : _ ∧ _ |- _ => destruct H end;
      repeat match goal with H : ?x = ?x |- _ => clear H end;
      (split; [lia|]); (destruct cr; [|done]); intros _; split; nia. }
  destruct Hsizes as (Hcd & Hl).
  repeat split; try done; by apply Hl.
Qed.

(** X15: for a hidden size that is not 0, [__init__] and [forward] go through
on an input of the call contract, with two tensors of shape [batch, len_d],
exactly for the well-sized configurations: a vocabulary that is not empty,
CoVe in use with embeddings of dimension 300 and CoVe vectors of dimension
2 * 300, and layer counts of 1 when [concat_rnn_layers] is set. *)
Theorem forward_returns_iff_well_sized (dflt : bool) (a : Args)
    (b ld lq : nat) :
  hidden_size a ≠ 0 →
  (∃ self, __init__ dflt a = Ok self ∧
     forward self [b; ld] [b; ld; num_features a] [b; ld] [b; lq] [b; lq]
       = Ok ([b; ld], [b; ld]))
  ↔ well_sized a.
Proof.
  intros Hh. split.
  - intros (self & Hi & Hf). by eapply forward_returns_well_sized.
  - apply forward_well_sized.
Qed.

Lemma forward_returns_iff_well_sized_witness :
  (∃ self, __init__ false one_layer_args = Ok self ∧
     forward self [2; 5] [2; 5; 4] [2; 5] [2; 3] [2; 3] = Ok ([2; 5], [2; 5]))
  ↔ well_sized one_layer_args.
Proof.
  apply (forward_returns_iff_well_sized false one_layer_args 2 5 3).
  simpl. lia.
Defined.

End Shapes.

(** ** Masked softmax

    The attention layers of [drqa/reader/layers.py] normalise their scores
    in one way: the scores at padding positions are filled with [-inf], then
    a softmax runs over the last dimension. *)

(** Modelled from the spec: the masking step of the attention layers of
    [layers.py], which is not among the source files: "masking out (setting
    to -inf or equivalent before softmax) any j marked as padding in the
    second sequence's mask".  [None] is [-inf]. *)
Definition masked_fill (scores : vec) (m : mask) : list (option R) :=
  zip_with (λ s (p : bool), if p then None else Some s) scores m.

(** Modelled from the spec: the exponential of a masked score, with
    [exp(-inf) = 0]. *)
Definition exp_ext (s : option R) : R :=
  match s with Some x => exp x | None => 0 end.

(** Modelled from the spec: the softmax over one row of masked scores.  "If
    a row has all positions masked, the softmax denominator is zero": every
    entry of the row is [0 / 0], which is [NaN]; such a row is written
    [None].  A row without positions has no entry to divide. *)
Definition softmax (scores : list (option R)) : option vec :=
  let e := exp_ext <$> scores in
  match scores with
  | [] => Some []
  | _ :: _ =>
      if Req_dec_T (Rsum e) 0 then None
      else Some ((λ x, x / Rsum e) <$> e)
  end.

(** Modelled from the spec: the normalisation of the attention layers of
    [layers.py], "softmax, masking padding"; [None] is a row of [NaN]. *)
Definition masked_softmax (scores : vec) (m : mask) : option vec :=
  softmax (masked_fill scores m).

(** The entries of a row at the positions that are not padding. *)
Definition valid (row : vec) (m : mask) : vec :=
  (filter (λ wp : R * bool, wp.2 = false) (zip row m)).*1.

(** A mask with at least one position that is not padding, among the first
    [n] positions. *)
Definition some_valid (n : nat) (m : mask) : Prop :=
  ∃ j, (j < n)%nat ∧ m !! j = Some false.

(** The masked softmax in the words of the spec, "row-stochastic over valid
    (non-padding) positions ...; padding positions contribute zero weight
    regardless of raw score": the weight of a position that is not padding
    is the exponential of its score divided by the sum of the exponentials
    of the scores of the positions that are not padding; the weight of a
    padding position is 0. *)
Definition masked_exp (scores : vec) (m : mask) : vec :=
  zip_with (λ s (p : bool), if p then 0 else exp s) scores m.

Definition is_masked_softmax (scores : vec) (m : mask) (w : vec) : Prop :=
  w = (λ x, x / Rsum (masked_exp scores m)) <$> masked_exp scores m ∧
  (w = [] ∨ Rsum (masked_exp scores m) ≠ 0).

Lemma Rsum_cons (a : R) (l : vec) : Rsum (a :: l) = a + Rsum l.
Proof. reflexivity. Qed.

Lemma Rsum_scale (c : R) (l : vec) : Rsum ((λ x, x / c) <$> l) = Rsum l / c.
Proof.
  induction l as [|a l IH]; [simpl; lra|].
  rewrite fmap_cons, !Rsum_cons, IH. lra.
Qed.

Lemma valid_scale (c : R) (l : vec) : ∀ m,
  valid ((λ x, x / c) <$> l) m = (λ x, x / c) <$> valid l m.
Proof.
  unfold valid. induction l as [|a l IH]; intros [|p m]; try done.
  rewrite fmap_cons. cbn [zip zip_with]. rewrite !filter_cons.
  destruct p; cbn [snd].
  - rewrite !decide_False by done. apply IH.
  - rewrite !decide_True by done. rewrite !fmap_cons. cbn [fst].
    f_equal. apply IH.
Qed.

Lemma exp_ext_nonneg (s : option R) : 0 <= exp_ext s.
Proof. destruct s; simpl; [left; apply exp_pos | lra]. Qed.

(** The padding positions add nothing to the denominator. *)
Lemma Rsum_valid_masked (scores : vec) : ∀ m,
  Rsum (valid (exp_ext <$> masked_fill scores m) m)
    = Rsum (exp_ext <$> masked_fill scores m).
Proof.
  unfold valid, masked_fill.
  induction scores as [|s scores IH]; intros [|p m]; try done.
  cbn [zip_with]. rewrite fmap_cons. cbn [zip zip_with].
  rewrite filter_cons, Rsum_cons. destruct p; cbn [snd exp_ext].
  - rewrite decide_False by done. rewrite IH. lra.
  - rewrite decide_True by done. rewrite fmap_cons, Rsum_cons. cbn [fst].
    by rewrite IH.
Qed.

Lemma Rsum_masked_nonneg (scores : vec) (m : mask) :
  0 <= Rsum (exp_ext <$> masked_fill scores m).
Proof.
  induction (masked_fill scores m) as [|a l IH]; [simpl; lra|].
  rewrite fmap_cons, Rsum_cons. pose proof (exp_ext_nonneg a). lra.
Qed.

Lemma Rsum_masked_pos (scores : vec) : ∀ m,
  some_valid (length scores) m →
  0 < Rsum (exp_ext <$> masked_fill scores m).
Proof.
  induction scores as [|s scores IH]; intros m (j & Hj & Hm); simpl in Hj.
  { lia. }
  destruct m as [|p m]; [done|].
  pose proof (Rsum_masked_nonneg scores m) as Hnn.
  change (0 < exp_ext (if p then None else Some s)
              + Rsum (exp_ext <$> masked_fill scores m)).
  destruct j as [|j]; simpl in Hm.
  - injection Hm as ->. simpl. pose proof (exp_pos s). lra.
  - assert (0 < Rsum (exp_ext <$> masked_fill scores m)).
    { apply IH. exists j. split; [lia|done]. }
    pose proof (exp_ext_nonneg (if p then None else Some s)). lra.
Qed.

(** With padding positions only, the denominator is zero. *)
Lemma Rsum_masked_zero (scores : vec) : ∀ m,
  Forall (λ p : bool, p = true) m →
  Rsum (exp_ext <$> masked_fill scores m) = 0.
Proof.
  induction scores as [|s scores IH]; intros [|p m] Hm; try done.
  inversion_clear Hm as [|? ? -> Hm'].
  change (0 + Rsum (exp_ext <$> masked_fill scores m) = 0).
  rewrite IH by done. lra.
Qed.

Lemma softmax_Some (scores : list (option R)) :
  Rsum (exp_ext <$> scores) ≠ 0 →
  softmax scores
  = Some ((λ x, x / Rsum (exp_ext <$> scores)) <$> (exp_ext <$> scores)).
Proof.
  intros Hz. unfold softmax. destruct scores as [|s scores]; [done|].
  by destruct (Req_dec_T _ 0).
Qed.

Lemma softmax_Some_inv (scores : list (option R)) (w : vec) :
  softmax scores = Some w →
  w = (λ x, x / Rsum (exp_ext <$> scores)) <$> (exp_ext <$> scores) ∧
  (w = [] ∨ Rsum (exp_ext <$> scores) ≠ 0).
Proof.
  unfold softmax. destruct scores as [|s scores].
  { intros [= <-]. split; [done|by left]. }
  destruct (Req_dec_T _ 0) as [|Hz]; [done|].
  intros [= <-]. split; [done|by right].
Qed.

(** A row with a position that is not padding is a row of numbers. *)
Lemma masked_softmax_defined (scores : vec) (m : mask) :
  some_valid (length scores) m → is_Some (masked_softmax scores m).
Proof.
  intros Hv. pose proof (Rsum_masked_pos scores m Hv).
  unfold masked_softmax. rewrite softmax_Some by lra. by eexists.
Qed.

(** A row with padding positions only, if it has a position, is [NaN]. *)
Lemma masked_softmax_nan (scores : vec) (m : mask) :
  scores ≠ [] → m ≠ [] → Forall (λ p : bool, p = true) m →
  masked_softmax scores m = None.
Proof.
  intros Hs Hm Hall. pose proof (Rsum_masked_zero scores m Hall) as Hz.
  unfold masked_softmax, softmax in *.
  destruct scores as [|s scores]; [done|]. destruct m as [|p m]; [done|].
  cbn [masked_fill zip_with] in *.
  by destruct (Req_dec_T _ 0).
Qed.

Lemma masked_softmax_length (scores : vec) (m : mask) (w : vec) :
  masked_softmax scores m = Some w →
  length w = (length scores `min` length m)%nat.
Proof.
  intros [-> _]%softmax_Some_inv. unfold masked_fill.
  by rewrite !length_fmap, length_zip_with.
Qed.

(** A row of a masked softmax sums to 1 over the positions that are not
    padding, as soon as there is one. *)
Lemma masked_softmax_valid_sum (scores : vec) (m : mask) (w : vec) :
  some_valid (length scores) m →
  masked_softmax scores m = Some w →
  Rsum (valid w m) = 1.
Proof.
  intros Hv [-> _]%softmax_Some_inv.
  rewrite valid_scale, Rsum_scale, Rsum_valid_masked.
  pose proof (Rsum_masked_pos scores m Hv). field. lra.
Qed.

(** A padding position gets weight 0, whatever its score. *)
Lemma masked_softmax_padding (scores : vec) (m : mask) (w : vec)
    (j : nat) (p : R) :
  masked_softmax scores m = Some w →
  w !! j = Some p → m !! j = Some true → p = 0.
Proof.
  intros [-> _]%softmax_Some_inv Hw Hm. unfold masked_fill in Hw.
  rewrite !list_lookup_fmap, lookup_zip_with, Hm in Hw.
  destruct (scores !! j) as [s|]; simpl in Hw; [|done].
  injection Hw as <-. lra.
Qed.

Lemma Rsum_nonneg (l : vec) : Forall (λ x, 0 <= x) l → 0 <= Rsum l.
Proof.
  induction 1 as [|x l Hx _ IH]; [simpl; lra|]. rewrite Rsum_cons. lra.
Qed.

Lemma Rsum_entry_le (l : vec) (j : nat) (x : R) :
  Forall (λ x, 0 <= x) l → l !! j = Some x → x <= Rsum l.
Proof.
  intros Hl. revert j. induction Hl as [|y l Hy Hl IH]; intros j Hj; [done|].
  rewrite Rsum_cons. pose proof (Rsum_nonneg l Hl).
  destruct j as [|j]; simpl in Hj.
  - injection Hj as ->. lra.
  - specialize (IH j Hj). lra.
Qed.

(** Every entry of a row of numbers is a probability. *)
Lemma masked_softmax_entry (scores : vec) (m : mask) (w : vec)
    (j : nat) (p : R) :
  masked_softmax scores m = Some w →
  w !! j = Some p → 0 <= p <= 1.
Proof.
  intros [-> Hz]%softmax_Some_inv.
  set (e := exp_ext <$> masked_fill scores m) in *.
  rewrite list_lookup_fmap. destruct (e !! j) as [x|] eqn:Hx; [|done].
  intros [= <-].
  assert (He : Forall (λ x, 0 <= x) e).
  { apply Forall_fmap, Forall_true. intros s. apply exp_ext_nonneg. }
  pose proof (Rsum_entry_le e j x He Hx) as Hle.
  pose proof (Rsum_nonneg e He) as Hnn.
  assert (0 <= x) by (by eapply Forall_lookup_1 in He).
  assert (Hpos : 0 < Rsum e).
  { destruct Hz as [Hz|Hz]; [|lra].
    apply fmap_nil_inv in Hz. by rewrite Hz in Hx. }
  split.
  - apply Rmult_le_pos; [done|]. left. by apply Rinv_0_lt_compat.
  - apply (Rmult_le_reg_r (Rsum e)); [done|].
    unfold Rdiv. rewrite Rmult_assoc, Rinv_l by lra. lra.
Qed.


Lemma masked_exp_fill (scores : vec) : ∀ m,
  exp_ext <$> masked_fill scores m = masked_exp scores m.
Proof.
  unfold masked_fill, masked_exp.
  induction scores as [|s scores IH]; intros [|p m]; try done.
  cbn [zip_with]. rewrite fmap_cons, IH. by destruct p.
Qed.

(** The model of the masked softmax computes what the spec words. *)
Lemma masked_softmax_spec (scores : vec) (m : mask) (w : vec) :
  masked_softmax scores m = Some w ↔ is_masked_softmax scores m w.
Proof.
  unfold is_masked_softmax. rewrite <- masked_exp_fill. split.
  - apply softmax_Some_inv.
  - intros [-> [Hz|Hz]].
    + apply fmap_nil_inv, fmap_nil_inv in Hz.
      unfold masked_softmax. by rewrite Hz.
    + unfold masked_softmax. by rewrite softmax_Some.
Qed.

(** The rows of the examples. *)
Lemma masked_softmax_one (s : R) : masked_softmax [s] [false] = Some [1].
Proof.
  apply masked_softmax_spec. unfold is_masked_softmax, masked_exp. simpl.
  pose proof (exp_pos s). split; [|right; lra].
  do 2 f_equal. field. lra.
Qed.

Lemma masked_softmax_one_of_two (s t : R) :
  masked_softmax [s; t] [false; true] = Some [1; 0].
Proof.
  apply masked_softmax_spec. unfold is_masked_softmax, masked_exp. simpl.
  pose proof (exp_pos s). split; [|right; lra].
  f_equal; [field; lra|]. f_equal. field. lra.
Qed.

Lemma masked_softmax_two (s t : R) :
  masked_softmax [s; t] [false; false]
  = Some [exp s / (exp s + exp t); exp t / (exp s + exp t)].
Proof.
  apply masked_softmax_spec. unfold is_masked_softmax, masked_exp. simpl.
  pose proof (exp_pos s). pose proof (exp_pos t). split; [|right; lra].
  f_equal; [field; lra|]. f_equal. field. lra.
Qed.

Lemma masked_softmax_padding_only (s : R) : masked_softmax [s] [true] = None.
Proof. apply masked_softmax_nan; [done..|]. by repeat constructor. Qed.

Arguments masked_softmax : simpl never.

(** ** drqa/reader/fusionnet_reader.py, on values

    The forward pass on one item of the batch: the computation is the same
    for every item and no item reads another.  A tensor [batch, len, dim]
    is, for the item, a sequence of [len] vectors.

    A softmax over a row whose positions are all padding is a row of [NaN].
    That happens for every row of a layer at once, when the whole second
    sequence is padding, and every number computed from such a layer is
    [NaN] down to the scores: from the attention layers on, a value of the
    pass is an [option], and [None] stands for a tensor of [NaN]. *)

Module Reader.

(** *** torch *)

Definition zeros (d : nat) : vec := repeat 0 d.

(** [torch.cat(ts, dim=2)]: the vectors of the same token are appended. *)
Fixpoint cat (ts : list vseq) : vseq :=
  match ts with
  | [] => []
  | [t] => t
  | t :: ts' => zip_with app t (cat ts')
  end.

(** Sum of vectors of one dimension.  (The sum of no vector is written
    [[]]; the code gets the zero vector of that dimension.) *)
Fixpoint vadd (u v : vec) : vec :=
  match u, v with
  | a :: u', b :: v' => (a + b) :: vadd u' v'
  | [], _ => v
  | _, [] => u
  end.

Definition vscale (c : R) (v : vec) : vec := (λ x, c * x) <$> v.

(** [weights.unsqueeze(1).bmm(x).squeeze(1)]: the sum of the vectors of
    [x], each multiplied by its weight. *)
Definition weighted_sum (weights : vec) (x : vseq) : vec :=
  foldr vadd [] (zip_with vscale weights x).

(** [nn.Linear]. *)
Record Linear : Type := {
  lin_weight : list vec;
  lin_bias : option vec;
}.

Definition Linear_forward (m : Linear) (x : vec) : vec :=
  let y := (λ row, dot row x) <$> lin_weight m in
  match lin_bias m with
  | Some b => zip_with Rplus y b
  | None => y
  end.

(** [nn.Embedding(num_embeddings, embedding_dim, padding_idx)].  The
    constructor draws the weight ([init i j] is the number drawn for row
    [i] and column [j]) and then fills the row [padding_idx] with zeros, and
    raises when there is no such row; the forward pass is a lookup of rows,
    and raises [IndexError] for a token that is no row. *)
Record Embedding : Type := {
  weight : list vec;
}.

Definition Embedding_init (num_embeddings embedding_dim padding_idx : nat)
    (init : nat → nat → R) : result Embedding :=
  let w := (λ i, init i <$> seq 0 embedding_dim) <$> seq 0 num_embeddings in
  if decide (padding_idx < num_embeddings)%nat
  then Ok {| weight := <[padding_idx := zeros embedding_dim]> w |}
  else Raise IndexError.

Definition Embedding_forward (m : Embedding) (x : list nat) : result vseq :=
  mapM (λ i, match weight m !! i with
             | Some v => Ok v
             | None => Raise IndexError
             end) x.

(** [nn.GRU(input_size, hidden_size, batch_first=True)], one layer: the
    cell is applied to the time steps in turn, from the initial hidden
    state; the outputs are the hidden states after every step, [h_n] the
    last one.  One step of the recurrence is a parameter. *)
Record GRU : Type := {
  gru_cell : vec → vec → vec;
}.

Fixpoint GRU_forward (m : GRU) (input : vseq) (h0 : vec) : vseq * vec :=
  match input with
  | [] => ([], h0)
  | x :: input' =>
      let h := gru_cell m x h0 in
      let '(out, h_n) := GRU_forward m input' h in
      (h :: out, h_n)
  end.

(** *** drqa/reader/layers.py *)

(** Modelled from the spec: [layers.StackedBRNN], which is not among
    the source files: "given an input tensor [batch, len, in_dim] and a
    padding mask, produce [batch, len, 2*hidden]"; the first argument is
    the training mode of the module, which switches its dropout. *)
Definition StackedBRNN : Type := bool → vseq → mask → vseq.

(** Modelled from the spec: [layers.SymBilinearAttnMatch], which is not
    among the source files: "score(a, b) = activation(a W)
    activation(b W)^T for a shared projection matrix W (plus optional bias)
    ... for each row i compute softmax over column scores, masking out any
    j marked as padding in the second sequence's mask ... output_i = sum_j
    weight_ij * value_j". *)
Record SymBilinearAttnMatch : Type := {
  attn_linear : Linear;
  attn_activation : R → R;
}.

(** Modelled from the spec: the projection "activation(a W)" of
    [layers.SymBilinearAttnMatch]. *)
Definition attn_project (m : SymBilinearAttnMatch) (a : vec) : vec :=
  attn_activation m <$> Linear_forward (attn_linear m) a.

(** Modelled from the spec: the score "activation(a W) activation(b W)^T"
    of [layers.SymBilinearAttnMatch]. *)
Definition attn_score (m : SymBilinearAttnMatch) (a b : vec) : R :=
  dot (attn_project m a) (attn_project m b).

(** Modelled from the spec: the attention weight matrix of
    [layers.SymBilinearAttnMatch], a row for every position of [x], "row-
    stochastic over valid (non-padding) positions" of [y]; a row of [NaN]
    is [None]. *)
Definition SymBilinearAttnMatch_weights (m : SymBilinearAttnMatch)
    (x y : vseq) (y_mask : mask) : list (option vec) :=
  (λ a, masked_softmax (attn_score m a <$> y) y_mask) <$> x.

(** Modelled from the spec: the forward pass of
    [layers.SymBilinearAttnMatch], "output_i = sum_j weight_ij * value_j".
    The vector computed from a row of [NaN] is [NaN]; a sequence with such
    vectors is [None], and so is everything computed from it ("NaN
    propagation from a degenerate all-padding sequence"). *)
Definition SymBilinearAttnMatch_forward (m : SymBilinearAttnMatch)
    (x y : vseq) (y_mask : mask) (values : vseq) : option vseq :=
  mapM (M := option) (λ row : option vec, row)
    (SymBilinearAttnMatch_weights m x y y_mask)
  ≫= λ rows : list vec, Some ((λ alpha, weighted_sum alpha values) <$> rows).

(** Modelled from the spec: [layers.LinearSeqAttn], which is not among
    the source files: "a single linear scoring function produces
    per-position weights normalized (softmax, masking padding) across the
    question sequence". *)
Record LinearSeqAttn : Type := {
  lsa_weight : vec;
  lsa_bias : R;
}.

(** Modelled from the spec: the forward pass of [layers.LinearSeqAttn]. *)
Definition LinearSeqAttn_forward (m : LinearSeqAttn) (x : vseq) (x_mask : mask)
    : option vec :=
  masked_softmax ((λ v, dot (lsa_weight m) v + lsa_bias m) <$> x) x_mask.

(** Modelled from the spec: [layers.weighted_avg], which is not among
    the source files: "the weighted average - a single vector per batch
    item". *)
Definition weighted_avg (x : vseq) (weights : vec) : vec :=
  weighted_sum weights x.

(** Modelled from the spec: [layers.BilinearSeqAttn], which is not among
    the source files: "bilinear score between each document
    position's fused hidden state and the pooled question vector,
    softmax-normalized over document positions (masking document
    padding)". *)
Record BilinearSeqAttn : Type := {
  bil_linear : Linear;
}.

(** Modelled from the spec: the bilinear scores of
    [layers.BilinearSeqAttn], one for every position of [x]. *)
Definition bilinear_scores (m : BilinearSeqAttn) (x : vseq) (y : vec) : vec :=
  let Wy := Linear_forward (bil_linear m) y in (λ v, dot v Wy) <$> x.

(** Modelled from the spec: the forward pass of [layers.BilinearSeqAttn]. *)
Definition BilinearSeqAttn_forward (m : BilinearSeqAttn)
    (x : vseq) (y : vec) (x_mask : mask) : option vec :=
  masked_softmax (bilinear_scores m x y) x_mask.

(** The weighted sum of vectors in the words of the spec, "output_i =
    sum_j weight_ij * value_j", entry by entry: entry [k] of the result is
    the sum over [j] of the weight [j] times entry [k] of the vector [j],
    and the result has an entry for every entry of a vector. *)
Definition width (x : vseq) : nat := foldr (λ u, Nat.max (length u)) 0%nat x.

Definition is_weighted_sum (weights : vec) (x : vseq) (v : vec) : Prop :=
  length v = width (take (length weights) x) ∧
  ∀ k, nth k v 0 = Rsum (zip_with (λ c u, c * nth k u 0) weights x).

(** *** FusionNetReader *)

(** The options [forward] reads from [self.args]. *)
Record Args : Type := {
  dropout_emb : R;
  use_qemb : bool;
  num_features : nat;
}.

(** The contextual encoder of the CoVe package, from the word embeddings
    and the number of tokens to one more vector for every token. *)
Definition MTLSTM : Type := vseq → nat → vseq.

(** Modelled from the spec: [layers.SeqAttnMatch], the attention-weighted
    question embedding given as one more input to the document encoder; it is
    not among the source files. *)
Definition SeqAttnMatch : Type := vseq → vseq → mask → vseq.

Record FusionNetReader : Type := {
  args : Args;
  embedding : Embedding;
  cove_encoder : option MTLSTM;
  qemb_match : option SeqAttnMatch;
  reading_low_level_doc_rnn : StackedBRNN;
  reading_low_level_question_rnn : StackedBRNN;
  reading_high_level_doc_rnn : StackedBRNN;
  reading_high_level_question_rnn : StackedBRNN;
  understanding_question_rnn : StackedBRNN;
  low_level_matrix_attention_layer : SymBilinearAttnMatch;
  high_level_matrix_attention_layer : SymBilinearAttnMatch;
  understanding_matrix_attention_layer : SymBilinearAttnMatch;
  multi_level_rnn : StackedBRNN;
  self_boosted_matrix_attention_layer : SymBilinearAttnMatch;
  understanding_doc_rnn : StackedBRNN;
  question_self_attn : LinearSeqAttn;
  start_attn : BilinearSeqAttn;
  start_gru : GRU;
  end_attn : BilinearSeqAttn;
}.

(** [torch.log(scores.add(1e-8))], entry by entry. *)
Definition log_eps (p : R) : R := ln (p + 1e-8).

Section Forward.
(** [nn.functional.dropout(x, p, training)], with the random source it
    draws from; the first argument numbers the calls of a pass, which draw
    independently. *)
Variable dropout : nat → R → bool → vseq → vseq.

Variable self : FusionNetReader.
(** [self.training] *)
Variable training : bool.
Variables (x1_f : vseq) (x1_mask x2_mask : mask).

(** The forward pass from line 185 on, for the word embeddings of lines
    182-183 and the two attributes that [__init__] sets only on some
    paths. *)
Variables (x1_word_emb x2_word_emb : vseq).
Variable cove : MTLSTM.
Variable qemb : option SeqAttnMatch.

Definition x1_lengths : nat := length (filter (λ p : bool, p = false) x1_mask).
Definition x2_lengths : nat := length (filter (λ p : bool, p = false) x2_mask).

Definition x1_cove_emb : vseq := cove x1_word_emb x1_lengths.
Definition x2_cove_emb : vseq := cove x2_word_emb x2_lengths.

(** Dropout on embeddings *)
Definition dropout_embeddings (call : nat) (x_emb : vseq) : vseq :=
  if Rlt_dec 0 (dropout_emb (args self))
  then dropout call (dropout_emb (args self)) training x_emb
  else x_emb.

Definition x1_emb : vseq :=
  dropout_embeddings 0 (cat [x1_word_emb; x1_cove_emb]).
Definition x2_emb : vseq :=
  dropout_embeddings 1 (cat [x2_word_emb; x2_cove_emb]).

(** Form document encoding inputs *)
Definition drnn_input : list vseq :=
  [x1_emb]
  ++ match qemb with
     | Some qemb_match => [qemb_match x1_word_emb x2_word_emb x2_mask]
     | None => []
     end
  ++ (if (0 <? num_features (args self))%nat then [x1_f] else []).

Definition low_level_doc_hiddens : vseq :=
  reading_low_level_doc_rnn self training (cat drnn_input) x1_mask.
Definition low_level_question_hiddens : vseq :=
  reading_low_level_question_rnn self training x2_emb x2_mask.

Definition high_level_doc_hiddens : vseq :=
  reading_high_level_doc_rnn self training low_level_doc_hiddens x1_mask.
Definition high_level_question_hiddens : vseq :=
  reading_high_level_question_rnn self training low_level_question_hiddens x2_mask.

Definition understanding_question_hiddens : vseq :=
  understanding_question_rnn self training
    (cat [low_level_question_hiddens; high_level_question_hiddens]) x2_mask.

Definition history_of_doc_word : vseq :=
  cat [x1_word_emb; x1_cove_emb; low_level_doc_hiddens; high_level_doc_hiddens].
Definition history_of_question_word : vseq :=
  cat [x2_word_emb; x2_cove_emb; low_level_question_hiddens;
       low_level_question_hiddens].


Definition low_level_doc_question_vectors : option vseq :=
  SymBilinearAttnMatch_forward (low_level_matrix_attention_layer self)
    history_of_doc_word history_of_question_word x2_mask
    low_level_question_hiddens.
Definition high_level_doc_question_vectors : option vseq :=
  SymBilinearAttnMatch_forward (high_level_matrix_attention_layer self)
    history_of_doc_word history_of_question_word x2_mask
    high_level_question_hiddens.
Definition understanding_doc_question_vectors : option vseq :=
  SymBilinearAttnMatch_forward (understanding_matrix_attention_layer self)
    history_of_doc_word history_of_question_word x2_mask
    understanding_question_hiddens.

(** Encode multi-level hiddens and vectors *)
Definition fa_multi_level_doc_hiddens : option vseq :=
  low_level_vectors ← low_level_doc_question_vectors;
  high_level_vectors ← high_level_doc_question_vectors;
  understanding_vectors ← understanding_doc_question_vectors;
  Some (multi_level_rnn self training
          (cat [low_level_doc_hiddens; high_level_doc_hiddens;
                low_level_vectors; high_level_vectors;
                understanding_vectors]) x1_mask).

Definition history_of_doc_word2 : option vseq :=
  low_level_vectors ← low_level_doc_question_vectors;
  high_level_vectors ← high_level_doc_question_vectors;
  understanding_vectors ← understanding_doc_question_vectors;
  fa_hiddens ← fa_multi_level_doc_hiddens;
  Some (cat [x1_word_emb; x1_cove_emb; low_level_doc_hiddens;
             high_level_doc_hiddens; low_level_vectors; high_level_vectors;
             understanding_vectors; fa_hiddens]).

Definition self_boosted_vectors : option vseq :=
  history ← history_of_doc_word2;
  fa_hiddens ← fa_multi_level_doc_hiddens;
  SymBilinearAttnMatch_forward (self_boosted_matrix_attention_layer self)
    history history x1_mask fa_hiddens.

(** Encode vectors and hiddens *)
Definition understanding_doc_hiddens : option vseq :=
  fa_hiddens ← fa_multi_level_doc_hiddens;
  boosted ← self_boosted_vectors;
  Some (understanding_doc_rnn self training (cat [fa_hiddens; boosted])
          x1_mask).

Definition q_merge_weights : option vec :=
  LinearSeqAttn_forward (question_self_attn self)
    understanding_question_hiddens x2_mask.
Definition question_hidden : option vec :=
  weights ← q_merge_weights;
  Some (weighted_avg understanding_question_hiddens weights).

(** Predict start and end positions *)
Definition start_scores : option vec :=
  doc_hiddens ← understanding_doc_hiddens;
  q ← question_hidden;
  BilinearSeqAttn_forward (start_attn self) doc_hiddens q x1_mask.
(** [unsqueeze(1)] makes the input a sequence of one time step;
    [unsqueeze(0)] and [squeeze(0)] add and remove the dimension of the
    one layer of the GRU. *)
Definition gru_input : option vseq :=
  doc_hiddens ← understanding_doc_hiddens;
  start ← start_scores;
  Some [weighted_avg doc_hiddens start].
Definition memory_hidden : option vec :=
  input ← gru_input;
  q ← question_hidden;
  Some (GRU_forward (start_gru self) input q).2.
Definition end_scores : option vec :=
  doc_hiddens ← understanding_doc_hiddens;
  memory ← memory_hidden;
  BilinearSeqAttn_forward (end_attn self) doc_hiddens memory x1_mask.

(** log start_scores *)
Definition scores : option (vec * vec) :=
  start_scores ≫= λ start : vec,
  end_scores ≫= λ end_ : vec,
  Some (if training then (log_eps <$> start, log_eps <$> end_)
        else (start, end_)).

(** The attention weight matrices of the three cross-attention levels and
of the self-boosted attention; each layer multiplies its matrix with the
value sequence. *)
Definition low_level_attention_weights : list (option vec) :=
  SymBilinearAttnMatch_weights (low_level_matrix_attention_layer self)
    history_of_doc_word history_of_question_word x2_mask.
Definition high_level_attention_weights : list (option vec) :=
  SymBilinearAttnMatch_weights (high_level_matrix_attention_layer self)
    history_of_doc_word history_of_question_word x2_mask.
Definition understanding_attention_weights : list (option vec) :=
  SymBilinearAttnMatch_weights (understanding_matrix_attention_layer self)
    history_of_doc_word history_of_question_word x2_mask.
Definition self_boosted_attention_weights : option (list (option vec)) :=
  history ← history_of_doc_word2;
  Some (SymBilinearAttnMatch_weights
          (self_boosted_matrix_attention_layer self) history history x1_mask).

(** The history vector of the question tokens as the claim words it: the raw
word embedding, the contextual embedding, the low-level and the high-level
hidden state, in that order. *)
Definition history_of_question_word_spec : vseq :=
  cat [x2_word_emb; x2_cove_emb; low_level_question_hiddens;
       high_level_question_hiddens].

(** The shape contract of the layers that are parameters here: each keeps
the length of the sequence it is given. *)
Definition keeps_length (f : StackedBRNN) : Prop :=
  ∀ t x m, length (f t x m) = length x.

Record layers_keep_length : Prop := {
  kl_dropout : ∀ k p t x, length (dropout k p t x) = length x;
  kl_cove : ∀ x n, length (cove x n) = length x;
  kl_qemb : ∀ f, qemb = Some f → ∀ x y m, length (f x y m) = length x;
  kl_low_doc : keeps_length (reading_low_level_doc_rnn self);
  kl_low_question : keeps_length (reading_low_level_question_rnn self);
  kl_high_doc : keeps_length (reading_high_level_doc_rnn self);
  kl_high_question : keeps_length (reading_high_level_question_rnn self);
  kl_understanding_question : keeps_length (understanding_question_rnn self);
  kl_multi_level : keeps_length (multi_level_rnn self);
  kl_understanding_doc : keeps_length (understanding_doc_rnn self);
}.

(** The shape of the manual features, when the module reads them. *)
Definition features_fit : Prop :=
  (0 < num_features (args self))%nat → length x1_f = length x1_word_emb.

(** A row of an attention weight matrix is normalised for the mask [m]: it
sums to 1, within 1e-5, over the positions that are not padding, and it is
exactly 0 at every padding position. *)
Definition row_stochastic (m : mask) (row : vec) : Prop :=
  Rabs (Rsum (valid row m) - 1) <= 1e-5 ∧
  ∀ j w, row !! j = Some w → m !! j = Some true → w = 0.

(** Every row of a matrix is a row of numbers that is normalised for the
mask [m]. *)
Definition rows_stochastic (m : mask) (rows : list (option vec)) : Prop :=
  ∀ i row, rows !! i = Some row → ∃ w, row = Some w ∧ row_stochastic m w.

Lemma cat_length (n : nat) (ts : list vseq) :
  ts ≠ [] → Forall (λ t, length t = n) ts → length (cat ts) = n.
Proof.
  induction ts as [|t ts IH]; [done|]. intros _ Hall.
  inversion_clear Hall as [|? ? Ht Hts].
  destruct ts as [|t' ts]; [done|].
  change (length (zip_with app t (cat (t' :: ts))) = n).
  rewrite length_zip_with, Ht, IH by done. lia.
Qed.

Lemma SymBilinearAttnMatch_weights_length m (x y : vseq) y_mask :
  length (SymBilinearAttnMatch_weights m x y y_mask) = length x.
Proof. unfold SymBilinearAttnMatch_weights. by rewrite length_fmap. Qed.

(** The layer returns the product of its weight matrix with the values,
when no row of the matrix is [NaN]. *)
Lemma SymBilinearAttnMatch_forward_Some m (x y : vseq) y_mask values v :
  SymBilinearAttnMatch_forward m x y y_mask values = Some v ↔
  ∃ rows, SymBilinearAttnMatch_weights m x y y_mask = Some <$> rows ∧
          v = (λ alpha, weighted_sum alpha values) <$> rows.
Proof.
  unfold SymBilinearAttnMatch_forward. split.
  - destruct (mapM _ _) as [rows|] eqn:E; [|done]. intros [= <-].
    exists rows. split; [|done].
    apply mapM_Some_1 in E. clear -E.
    induction E as [|? ? ? ? -> _ IH]; [done|]. by rewrite fmap_cons, IH.
  - intros (rows & -> & ->).
    rewrite (mapM_fmap_Some (λ row, row) Some rows) by done. done.
Qed.

Lemma SymBilinearAttnMatch_forward_length m (x y : vseq) y_mask values v :
  SymBilinearAttnMatch_forward m x y y_mask values = Some v →
  length v = length x.
Proof.
  intros (rows & Hrows & ->)%SymBilinearAttnMatch_forward_Some.
  rewrite <- (SymBilinearAttnMatch_weights_length m x y y_mask), Hrows.
  by rewrite !length_fmap.
Qed.

(** Every row of the attention weight matrix of a layer is a row of
numbers, with an entry for every position of the second sequence, that
sums to 1 over the positions that are not padding and is 0 at the others,
if the second sequence has a position that is not padding. *)
Lemma SymBilinearAttnMatch_weights_row m (x y : vseq) y_mask i row :
  some_valid (length y) y_mask →
  SymBilinearAttnMatch_weights m x y y_mask !! i = Some row →
  ∃ w, row = Some w ∧
       length w = (length y `min` length y_mask)%nat ∧
       Rsum (valid w y_mask) = 1 ∧
       ∀ j p, w !! j = Some p → y_mask !! j = Some true → p = 0.
Proof.
  unfold SymBilinearAttnMatch_weights. intros Hv Hrow.
  rewrite list_lookup_fmap in Hrow.
  destruct (x !! i) as [a|]; [|done]. injection Hrow as <-.
  assert (Hv' : some_valid (length (attn_score m a <$> y)) y_mask)
    by (by rewrite length_fmap).
  destruct (masked_softmax_defined _ _ Hv') as [w Hw].
  exists w. split; [done|]. split; [|split].
  - by rewrite (masked_softmax_length _ _ _ Hw), length_fmap.
  - by eapply masked_softmax_valid_sum.
  - intros j p Hp Hm. by eapply masked_softmax_padding.
Qed.

Lemma SymBilinearAttnMatch_rows_stochastic m (x y : vseq) y_mask :
  some_valid (length y) y_mask →
  rows_stochastic y_mask (SymBilinearAttnMatch_weights m x y y_mask).
Proof.
  intros Hv i row Hrow.
  destruct (SymBilinearAttnMatch_weights_row m x y y_mask i row Hv Hrow)
    as (w & -> & _ & Hsum & Hpad).
  exists w. split; [done|]. split; [|done].
  rewrite Hsum. replace (1 - 1) with 0 by lra. rewrite Rabs_R0. lra.
Qed.

Lemma SymBilinearAttnMatch_forward_defined m (x y : vseq) y_mask values :
  some_valid (length y) y_mask →
  is_Some (SymBilinearAttnMatch_forward m x y y_mask values).
Proof.
  intros Hv. unfold SymBilinearAttnMatch_forward.
  destruct (mapM _ _) as [rows|] eqn:E; [by eexists|].
  apply mapM_None_1, Exists_exists in E as (row & Hin & Hrow).
  apply list_elem_of_lookup in Hin as [i Hi].
  destruct (SymBilinearAttnMatch_rows_stochastic m x y y_mask Hv i row Hi)
    as (w & -> & _).
  done.
Qed.

(** With padding positions only in the second sequence, every row of the
layer is [NaN] and so is what the layer returns. *)
Lemma SymBilinearAttnMatch_forward_nan m (x y : vseq) y_mask values :
  x ≠ [] → y ≠ [] → y_mask ≠ [] → Forall (λ p : bool, p = true) y_mask →
  SymBilinearAttnMatch_forward m x y y_mask values = None.
Proof.
  intros Hx Hy Hm Hall. unfold SymBilinearAttnMatch_forward.
  rewrite (proj2 (mapM_None _ _)); [done|].
  destruct x as [|a x]; [done|]. apply Exists_cons_hd. simpl.
  apply masked_softmax_nan; [by destruct y|done..].
Qed.

Lemma dropout_embeddings_length (k : nat) (x : vseq) :
  layers_keep_length → length (dropout_embeddings k x) = length x.
Proof.
  intros K. unfold dropout_embeddings.
  destruct (Rlt_dec _ _); [apply (kl_dropout K)|done].
Qed.

Lemma low_level_question_hiddens_length :
  layers_keep_length →
  length low_level_question_hiddens = length x2_word_emb.
Proof.
  intros K. unfold low_level_question_hiddens. rewrite (kl_low_question K).
  unfold x2_emb. rewrite dropout_embeddings_length by done.
  apply cat_length; [done|]. repeat constructor. apply (kl_cove K).
Qed.

Lemma history_of_question_word_length :
  layers_keep_length →
  length history_of_question_word = length x2_word_emb.
Proof.
  intros K. unfold history_of_question_word.
  pose proof (low_level_question_hiddens_length K).
  assert (Hc : length x2_cove_emb = length x2_word_emb) by apply (kl_cove K).
  apply cat_length; [done|]. by repeat constructor.
Qed.

Lemma understanding_question_hiddens_length :
  layers_keep_length →
  length understanding_question_hiddens = length x2_word_emb.
Proof.
  intros K. unfold understanding_question_hiddens.
  rewrite (kl_understanding_question K).
  pose proof (low_level_question_hiddens_length K).
  apply cat_length; [done|]. repeat constructor; [done|].
  unfold high_level_question_hiddens. by rewrite (kl_high_question K).
Qed.

Lemma low_level_doc_hiddens_length :
  layers_keep_length → features_fit →
  length low_level_doc_hiddens = length x1_word_emb.
Proof.
  intros K Hf. unfold low_level_doc_hiddens. rewrite (kl_low_doc K).
  apply cat_length; [done|]. unfold drnn_input.
  apply Forall_app; split; [|apply Forall_app; split].
  - repeat constructor. unfold x1_emb.
    rewrite dropout_embeddings_length by done.
    apply cat_length; [done|]. repeat constructor. apply (kl_cove K).
  - destruct qemb as [f|] eqn:Hq; repeat constructor.
    by apply (kl_qemb K f).
  - destruct (Nat.ltb_spec 0 (num_features (args self)));
      repeat constructor. by apply Hf.
Qed.

Lemma high_level_doc_hiddens_length :
  layers_keep_length → features_fit →
  length high_level_doc_hiddens = length x1_word_emb.
Proof.
  intros K Hf. unfold high_level_doc_hiddens. rewrite (kl_high_doc K).
  by apply low_level_doc_hiddens_length.
Qed.

Lemma history_of_doc_word_length :
  layers_keep_length → features_fit →
  length history_of_doc_word = length x1_word_emb.
Proof.
  intros K Hf. unfold history_of_doc_word.
  pose proof (low_level_doc_hiddens_length K Hf).
  pose proof (high_level_doc_hiddens_length K Hf).
  assert (Hc : length x1_cove_emb = length x1_word_emb) by apply (kl_cove K).
  apply cat_length; [done|]. by repeat constructor.
Qed.

(** The three cross-attention passes return a vector for every document
position, when they return numbers. *)
Lemma doc_question_vectors_length (v : vseq) :
  layers_keep_length → features_fit →
  low_level_doc_question_vectors = Some v ∨
  high_level_doc_question_vectors = Some v ∨
  understanding_doc_question_vectors = Some v →
  length v = length x1_word_emb.
Proof.
  intros K Hf H. rewrite <- (history_of_doc_word_length K Hf).
  destruct H as [H|[H|H]];
    by eapply SymBilinearAttnMatch_forward_length.
Qed.

(** With a question token that is not padding, they return numbers. *)
Lemma doc_question_vectors_defined :
  layers_keep_length →
  some_valid (length x2_word_emb) x2_mask →
  is_Some low_level_doc_question_vectors ∧
  is_Some high_level_doc_question_vectors ∧
  is_Some understanding_doc_question_vectors.
Proof.
  intros K Hq. rewrite <- (history_of_question_word_length K) in Hq.
  repeat split; by apply SymBilinearAttnMatch_forward_defined.
Qed.

Lemma fa_multi_level_doc_hiddens_length (fa : vseq) :
  layers_keep_length → features_fit →
  fa_multi_level_doc_hiddens = Some fa → length fa = length x1_word_emb.
Proof.
  intros K Hf. unfold fa_multi_level_doc_hiddens.
  destruct low_level_doc_question_vectors as [v1|] eqn:E1; [|done].
  destruct high_level_doc_question_vectors as [v2|] eqn:E2; [|done].
  destruct understanding_doc_question_vectors as [v3|] eqn:E3; [|done].
  cbn [mbind option_bind]. intros Heq. apply (inj Some) in Heq as <-.
  rewrite (kl_multi_level K).
  pose proof (low_level_doc_hiddens_length K Hf).
  pose proof (high_level_doc_hiddens_length K Hf).
  apply cat_length; [done|].
  repeat constructor; try done;
    apply doc_question_vectors_length; auto.
Qed.

Lemma fa_multi_level_doc_hiddens_defined :
  layers_keep_length →
  some_valid (length x2_word_emb) x2_mask →
  is_Some fa_multi_level_doc_hiddens.
Proof.
  intros K Hq. unfold fa_multi_level_doc_hiddens.
  destruct (doc_question_vectors_defined K Hq)
    as ([v1 ->] & [v2 ->] & [v3 ->]).
  by eexists.
Qed.

Lemma history_of_doc_word2_length (h : vseq) :
  layers_keep_length → features_fit →
  history_of_doc_word2 = Some h → length h = length x1_word_emb.
Proof.
  intros K Hf. unfold history_of_doc_word2.
  destruct low_level_doc_question_vectors as [v1|] eqn:E1; [|done].
  destruct high_level_doc_question_vectors as [v2|] eqn:E2; [|done].
  destruct understanding_doc_question_vectors as [v3|] eqn:E3; [|done].
  destruct fa_multi_level_doc_hiddens as [fa|] eqn:E4; [|done].
  cbn [mbind option_bind]. intros Heq. apply (inj Some) in Heq as <-.
  pose proof (low_level_doc_hiddens_length K Hf).
  pose proof (high_level_doc_hiddens_length K Hf).
  pose proof (fa_multi_level_doc_hiddens_length fa K Hf E4).
  assert (Hc : length x1_cove_emb = length x1_word_emb) by apply (kl_cove K).
  apply cat_length; [done|].
  repeat constructor; try done;
    apply doc_question_vectors_length; auto.
Qed.

Lemma history_of_doc_word2_defined :
  layers_keep_length →
  some_valid (length x2_word_emb) x2_mask →
  is_Some history_of_doc_word2.
Proof.
  intros K Hq. unfold history_of_doc_word2.
  destruct (doc_question_vectors_defined K Hq)
    as ([v1 ->] & [v2 ->] & [v3 ->]).
  destruct (fa_multi_level_doc_hiddens_defined K Hq) as [fa ->].
  by eexists.
Qed.

Lemma understanding_doc_hiddens_length (H : vseq) :
  layers_keep_length → features_fit →
  understanding_doc_hiddens = Some H → length H = length x1_word_emb.
Proof.
  intros K Hf. unfold understanding_doc_hiddens, self_boosted_vectors.
  destruct fa_multi_level_doc_hiddens as [fa|] eqn:E1; [|done].
  destruct history_of_doc_word2 as [h|] eqn:E2; [|done].
  cbn [mbind option_bind].
  destruct (SymBilinearAttnMatch_forward _ h h x1_mask fa) as [sb|] eqn:E3;
    [|done].
  cbn [mbind option_bind]. intros Heq. apply (inj Some) in Heq as <-.
  rewrite (kl_understanding_doc K).
  pose proof (fa_multi_level_doc_hiddens_length fa K Hf E1).
  pose proof (history_of_doc_word2_length h K Hf E2).
  apply SymBilinearAttnMatch_forward_length in E3.
  apply cat_length; [done|]. repeat constructor; congruence.
Qed.

Lemma understanding_doc_hiddens_defined :
  layers_keep_length → features_fit →
  some_valid (length x2_word_emb) x2_mask →
  some_valid (length x1_word_emb) x1_mask →
  is_Some understanding_doc_hiddens.
Proof.
  intros K Hf Hq Hd. unfold understanding_doc_hiddens, self_boosted_vectors.
  destruct (fa_multi_level_doc_hiddens_defined K Hq) as [fa ->].
  destruct (history_of_doc_word2_defined K Hq) as [h Hh]. rewrite Hh.
  cbn [mbind option_bind].
  rewrite <- (history_of_doc_word2_length h K Hf Hh) in Hd.
  destruct (SymBilinearAttnMatch_forward_defined
              (self_boosted_matrix_attention_layer self) h h x1_mask fa Hd)
    as [sb ->].
  by eexists.
Qed.

Lemma question_hidden_defined :
  layers_keep_length →
  some_valid (length x2_word_emb) x2_mask →
  is_Some question_hidden.
Proof.
  intros K Hq. unfold question_hidden, q_merge_weights, LinearSeqAttn_forward.
  rewrite <- (understanding_question_hiddens_length K) in Hq.
  destruct (masked_softmax_defined
              ((λ v, dot (lsa_weight (question_self_attn self)) v
                     + lsa_bias (question_self_attn self))
                 <$> understanding_question_hiddens) x2_mask) as [w ->].
  { by rewrite length_fmap. }
  by eexists.
Qed.

Lemma bilinear_scores_length m (x : vseq) (y : vec) :
  length (bilinear_scores m x y) = length x.
Proof. unfold bilinear_scores. by rewrite length_fmap. Qed.

Lemma GRU_forward_last m (input : vseq) : ∀ h0,
  (GRU_forward m input h0).2 = foldl (λ h x, gru_cell m x h) h0 input.
Proof.
  induction input as [|x input IH]; intros h0; simpl; [done|].
  rewrite <- IH. by destruct (GRU_forward m input (gru_cell m x h0)).
Qed.

(** The decoder, stage by stage, when it returns numbers: over the fused
document hidden states [H] and the pooled question vector [q]. *)
Lemma decoder_stages (s e : vec) :
  start_scores = Some s → end_scores = Some e →
  ∃ H q,
    understanding_doc_hiddens = Some H ∧
    question_hidden = Some q ∧
    masked_softmax (bilinear_scores (start_attn self) H q) x1_mask = Some s ∧
    masked_softmax
      (bilinear_scores (end_attn self) H
         (gru_cell (start_gru self) (weighted_sum s H) q)) x1_mask = Some e.
Proof.
  unfold end_scores, memory_hidden, gru_input. intros Hs. rewrite Hs.
  unfold start_scores in Hs.
  destruct understanding_doc_hiddens as [H|]; [|done].
  destruct question_hidden as [q|]; [|done].
  cbn [mbind option_bind] in *. intros He.
  exists H, q. by repeat split.
Qed.

(** With a token that is not padding in the question and in the document,
the decoder returns numbers. *)
Lemma scores_defined :
  layers_keep_length → features_fit →
  some_valid (length x2_word_emb) x2_mask →
  some_valid (length x1_word_emb) x1_mask →
  ∃ s e, start_scores = Some s ∧ end_scores = Some e ∧
         scores = Some (if training then (log_eps <$> s, log_eps <$> e)
                        else (s, e)).
Proof.
  intros K Hf Hq Hd.
  destruct (understanding_doc_hiddens_defined K Hf Hq Hd) as [H HH].
  destruct (question_hidden_defined K Hq) as [q Hq'].
  pose proof (understanding_doc_hiddens_length H K Hf HH) as Hlen.
  assert (Hb : ∀ m y, is_Some (BilinearSeqAttn_forward m H y x1_mask)).
  { intros m y. apply masked_softmax_defined.
    by rewrite bilinear_scores_length, Hlen. }
  unfold scores, end_scores, memory_hidden, gru_input, start_scores.
  rewrite HH, Hq'. cbn [mbind option_bind].
  destruct (Hb (start_attn self) q) as [s Hs]. rewrite Hs.
  cbn [mbind option_bind].
  destruct (Hb (end_attn self)
              (GRU_forward (start_gru self) [weighted_avg H s] q).2)
    as [e He].
  rewrite He. cbn [mbind option_bind]. by exists s, e.
Qed.

(** The distributions of the decoder, before the conversion of the training
mode. *)
Lemma span_distribution (s : vec) :
  layers_keep_length → features_fit →
  some_valid (length x1_word_emb) x1_mask →
  length x1_mask = length x1_word_emb →
  start_scores = Some s ∨ end_scores = Some s →
  length s = length x1_word_emb ∧
  Rsum (valid s x1_mask) = 1 ∧
  ∀ i p, s !! i = Some p →
         0 <= p <= 1 ∧ (x1_mask !! i = Some true → p = 0).
Proof.
  intros K Hf Hv Hlen Hs.
  assert (∃ H y m, understanding_doc_hiddens = Some H ∧
                   masked_softmax (bilinear_scores m H y) x1_mask = Some s)
    as (H & y & m & HH & Hsm).
  { destruct Hs as [Hs|Hs]; revert Hs.
    - unfold start_scores.
      destruct understanding_doc_hiddens as [H|]; [|done].
      destruct question_hidden as [q|]; [|done]. by exists H, q, (start_attn self).
    - unfold end_scores.
      destruct understanding_doc_hiddens as [H|]; [|done].
      destruct memory_hidden as [y|]; [|done]. by exists H, y, (end_attn self). }
  pose proof (understanding_doc_hiddens_length H K Hf HH) as HlenH.
  assert (Hl : length (bilinear_scores m H y) = length x1_word_emb)
    by (by rewrite bilinear_scores_length).
  rewrite <- Hl in Hv. split; [|split].
  - rewrite (masked_softmax_length _ _ _ Hsm), Hl, Hlen. lia.
  - by eapply masked_softmax_valid_sum.
  - intros i p Hp. split.
    + by eapply masked_softmax_entry.
    + intros Hm. by eapply masked_softmax_padding.
Qed.


(** C2, as amended: when the layers keep the sequence lengths and the
question has a token that is not padding, every row of the attention weight
matrices of the three cross-attention levels sums to 1 (within 1e-5) over
the question positions that are not padding and is 0 at every padding
position of the question; when the document has a token that is not
padding too, the self-boosted attention has a matrix of numbers, with a row
for every document position, and every row of it does so for the document
positions. *)
Theorem attention_weights_row_stochastic :
  layers_keep_length →
  some_valid (length x2_word_emb) x2_mask →
  (rows_stochastic x2_mask low_level_attention_weights ∧
   rows_stochastic x2_mask high_level_attention_weights ∧
   rows_stochastic x2_mask understanding_attention_weights) ∧
  (features_fit →
   some_valid (length x1_word_emb) x1_mask →
   ∃ W, self_boosted_attention_weights = Some W ∧
        length W = length x1_word_emb ∧
        rows_stochastic x1_mask W).
Proof.
  intros K Hq. split.
  - rewrite <- (history_of_question_word_length K) in Hq.
    repeat split; by apply SymBilinearAttnMatch_rows_stochastic.
  - intros Hf Hd. unfold self_boosted_attention_weights.
    destruct (history_of_doc_word2_defined K Hq) as [h Hh]. rewrite Hh.
    pose proof (history_of_doc_word2_length h K Hf Hh) as Hlen.
    eexists. split; [reflexivity|]. split.
    + by rewrite SymBilinearAttnMatch_weights_length.
    + apply SymBilinearAttnMatch_rows_stochastic. by rewrite Hlen.
Qed.

End Forward.

(** [FusionNetReader.forward].  It returns [Ok None] when the scores it
returns are [NaN]. *)
Definition forward (dropout : nat → R → bool → vseq → vseq)
    (self : FusionNetReader) (training : bool)
    (x1 : list nat) (x1_f : vseq) (x1_mask : mask)
    (x2 : list nat) (x2_mask : mask) : result (option (vec * vec)) :=
  x1_word_emb ← Embedding_forward (embedding self) x1;
  x2_word_emb ← Embedding_forward (embedding self) x2;
  cove ← getattr (cove_encoder self);
  qemb ← (if use_qemb (args self)
          then q ← getattr (qemb_match self); Ok (Some q)
          else Ok None);
  Ok (scores dropout self training x1_f x1_mask x2_mask
        x1_word_emb x2_word_emb cove qemb).

(** *** A small reader *)

(** A recurrent layer that returns the vector [v] at every position. *)
Definition const_rnn (v : vec) : StackedBRNN := λ _ x _, (λ _, v) <$> x.

Definition unit_linear : Linear := {| lin_weight := [[1]]; lin_bias := None |}.

Definition relu_attn : SymBilinearAttnMatch :=
  {| attn_linear := unit_linear; attn_activation := Rmax 0 |}.

Definition no_dropout : nat → R → bool → vseq → vseq := λ _ _ _ x, x.

Definition const_cove : MTLSTM := λ x _, (λ _, [2]) <$> x.

(** Embeddings, CoVe vectors and hidden states of dimension 1; the word
embedding has the rows [[0]] (padding) and [[1]]. *)
Definition small_reader : FusionNetReader := {|
  args := {| dropout_emb := 0; use_qemb := false; num_features := 0 |};
  embedding := {| weight := [[0]; [1]] |};
  cove_encoder := Some const_cove;
  qemb_match := None;
  reading_low_level_doc_rnn := const_rnn [3];
  reading_low_level_question_rnn := const_rnn [3];
  reading_high_level_doc_rnn := const_rnn [4];
  reading_high_level_question_rnn := const_rnn [4];
  understanding_question_rnn := const_rnn [5];
  low_level_matrix_attention_layer := relu_attn;
  high_level_matrix_attention_layer := relu_attn;
  understanding_matrix_attention_layer := relu_attn;
  multi_level_rnn := const_rnn [6];
  self_boosted_matrix_attention_layer := relu_attn;
  understanding_doc_rnn := const_rnn [7];
  question_self_attn := {| lsa_weight := [1]; lsa_bias := 0 |};
  start_attn := {| bil_linear := unit_linear |};
  start_gru := {| gru_cell := vadd |};
  end_attn := {| bil_linear := unit_linear |};
|}.

(** The definitions of a forward pass, to unfold them together. *)
Create HintDb forward_pass.
#[local] Hint Unfold
  x1_lengths x2_lengths x1_cove_emb x2_cove_emb dropout_embeddings
  x1_emb x2_emb drnn_input low_level_doc_hiddens low_level_question_hiddens
  high_level_doc_hiddens high_level_question_hiddens
  understanding_question_hiddens history_of_doc_word history_of_question_word
  history_of_question_word_spec
  low_level_doc_question_vectors high_level_doc_question_vectors
  understanding_doc_question_vectors fa_multi_level_doc_hiddens
  history_of_doc_word2 self_boosted_vectors understanding_doc_hiddens
  q_merge_weights question_hidden start_scores gru_input memory_hidden
  end_scores scores
  low_level_attention_weights high_level_attention_weights
  understanding_attention_weights self_boosted_attention_weights
  : forward_pass.

(** Evaluates a forward pass of [small_reader], whose embedding dropout is
off. *)
Ltac eval_small_reader :=
  autounfold with forward_pass; simpl;
  destruct (Rlt_dec 0 0) as [?H|_]; [lra|]; simpl.

(** Evaluates the rows of the attention layers of such a pass, over a
question of one token and a document of one or two tokens. *)
Ltac eval_rows :=
  unfold SymBilinearAttnMatch_forward, SymBilinearAttnMatch_weights,
    LinearSeqAttn_forward, BilinearSeqAttn_forward, bilinear_scores;
  simpl;
  repeat (progress (rewrite ?masked_softmax_one, ?masked_softmax_one_of_two,
                      ?masked_softmax_padding_only); simpl).

Lemma small_reader_keeps_length :
  layers_keep_length no_dropout small_reader const_cove None.
Proof.
  split; try done; unfold keeps_length; simpl; intros;
    unfold const_cove, const_rnn; by rewrite length_fmap.
Qed.

(** *** The history vector of the question *)

(** The reader [self] with another high-level encoder of the question. *)
Definition with_high_level_question_rnn (f : StackedBRNN)
    (self : FusionNetReader) : FusionNetReader :=
  {| args := args self; embedding := embedding self;
     cove_encoder := cove_encoder self; qemb_match := qemb_match self;
     reading_low_level_doc_rnn := reading_low_level_doc_rnn self;
     reading_low_level_question_rnn := reading_low_level_question_rnn self;
     reading_high_level_doc_rnn := reading_high_level_doc_rnn self;
     reading_high_level_question_rnn := f;
     understanding_question_rnn := understanding_question_rnn self;
     low_level_matrix_attention_layer := low_level_matrix_attention_layer self;
     high_level_matrix_attention_layer := high_level_matrix_attention_layer self;
     understanding_matrix_attention_layer :=
       understanding_matrix_attention_layer self;
     multi_level_rnn := multi_level_rnn self;
     self_boosted_matrix_attention_layer :=
       self_boosted_matrix_attention_layer self;
     understanding_doc_rnn := understanding_doc_rnn self;
     question_self_attn := question_self_attn self;
     start_attn := start_attn self; start_gru := start_gru self;
     end_attn := end_attn self |}.

(** C1, where the code departs from the claim: the history vector of the
question tokens given to the three cross-attention levels is the
concatenation of the word embedding, the CoVe embedding and twice the
low-level hidden state.  The high-level hidden state is not in it: the
vector is the same whatever the high-level encoder of the question
computes, and for a question of two tokens with low-level states [3] and
high-level states [4] it is [1; 2; 3; 3] and [0; 2; 3; 3], where the claim
has [1; 2; 3; 4] and [0; 2; 3; 4]. *)
Theorem history_of_question_word_repeats_low_level :
  (∀ dropout self training x2_mask x2_word_emb cove f,
     history_of_question_word dropout
       (with_high_level_question_rnn f self) training x2_mask x2_word_emb cove
     = history_of_question_word dropout self training x2_mask x2_word_emb cove) ∧
  history_of_question_word no_dropout small_reader false
    [false; true] [[1]; [0]] const_cove = [[1; 2; 3; 3]; [0; 2; 3; 3]] ∧
  history_of_question_word_spec no_dropout small_reader false
    [false; true] [[1]; [0]] const_cove = [[1; 2; 3; 4]; [0; 2; 3; 4]].
Proof.
  split; [reflexivity|].
  split; eval_small_reader; reflexivity.
Qed.

(** *** The attention weight matrices *)

(** The self-boosted attention matrix of the small reader for a question of
one real token and a document of one padding token: its one row, which is
normalised over the document positions, is [NaN]. *)
Lemma small_reader_self_boosted_nan :
  self_boosted_attention_weights no_dropout small_reader false
    [] [true] [false] [[0]] [[1]] const_cove None = Some [None].
Proof. eval_small_reader. eval_rows. reflexivity. Qed.

(** C2, the claim as stated fails: a question of one real token and a
document of one padding token.  The question has a token that is not
padding, but the row of the self-boosted attention matrix, which is
normalised over the document positions, has no position that is not padding
to sum over: the denominator of the softmax is zero and the row is [NaN],
not a row that sums to 1. *)
Lemma self_boosted_weights_all_padding_document :
  some_valid (length [[1]]) [false] ∧
  self_boosted_attention_weights no_dropout small_reader false
    [] [true] [false] [[0]] [[1]] const_cove None = Some [None] ∧
  ¬ ∃ W,
      self_boosted_attention_weights no_dropout small_reader false
        [] [true] [false] [[0]] [[1]] const_cove None = Some W ∧
      rows_stochastic [true] W.
Proof.
  split.
  { exists 0%nat. split; [simpl; lia|done]. }
  split; [exact small_reader_self_boosted_nan|].
  rewrite small_reader_self_boosted_nan. intros (W & [= <-] & HW).
  by destruct (HW 0%nat None eq_refl) as (w & ? & _).
Qed.

(** The self-boosted attention matrix of the small reader for a question of
one real token and a document of a real token and a padding token. *)
Lemma small_reader_self_boosted_weights :
  self_boosted_attention_weights no_dropout small_reader false
    [] [false; true] [false] [[1]; [0]] [[1]] const_cove None
  = Some [Some [1; 0]; Some [1; 0]].
Proof. eval_small_reader. eval_rows. reflexivity. Qed.

Lemma attention_weights_row_stochastic_witness :
  (rows_stochastic [false]
     (low_level_attention_weights no_dropout small_reader false
        [] [false; true] [false] [[1]; [0]] [[1]] const_cove None) ∧
   rows_stochastic [false]
     (high_level_attention_weights no_dropout small_reader false
        [] [false; true] [false] [[1]; [0]] [[1]] const_cove None) ∧
   rows_stochastic [false]
     (understanding_attention_weights no_dropout small_reader false
        [] [false; true] [false] [[1]; [0]] [[1]] const_cove None)) ∧
  self_boosted_attention_weights no_dropout small_reader false
    [] [false; true] [false] [[1]; [0]] [[1]] const_cove None
  = Some [Some [1; 0]; Some [1; 0]] ∧
  rows_stochastic [false; true] [Some [1; 0]; Some [1; 0]].
Proof.
  destruct (attention_weights_row_stochastic no_dropout small_reader false
              [] [false; true] [false] [[1]; [0]] [[1]] const_cove None)
    as [Hcross Hself].
  - exact small_reader_keeps_length.
  - exists 0%nat. split; [simpl; lia|reflexivity].
  - split; [exact Hcross|]. split; [exact small_reader_self_boosted_weights|].
    destruct Hself as (W & HW & _ & Hrows).
    + intros H. simpl in H. lia.
    + exists 0%nat. split; [simpl; lia|reflexivity].
    + rewrite small_reader_self_boosted_weights in HW.
      injection HW as <-. exact Hrows.
Defined.

(** *** What [forward] returns *)

(** The optional attribute [qemb_match], as [forward] reads it. *)
Definition attached_qemb (self : FusionNetReader)
    (qemb : option SeqAttnMatch) : Prop :=
  if use_qemb (args self)
  then ∃ q, qemb_match self = Some q ∧ qemb = Some q
  else qemb = None.

(** [forward] returns exactly when both lookups of embeddings succeed and
the attributes it reads exist, and then it returns [scores]. *)
Lemma forward_Ok dropout self training x1 x1_f x1_mask x2 x2_mask r :
  forward dropout self training x1 x1_f x1_mask x2 x2_mask = Ok r ↔
  ∃ x1_word_emb x2_word_emb cove qemb,
    Embedding_forward (embedding self) x1 = Ok x1_word_emb ∧
    Embedding_forward (embedding self) x2 = Ok x2_word_emb ∧
    cove_encoder self = Some cove ∧
    attached_qemb self qemb ∧
    r = scores dropout self training x1_f x1_mask x2_mask
          x1_word_emb x2_word_emb cove qemb.
Proof.
  unfold forward, attached_qemb. split.
  - destruct (Embedding_forward _ x1) as [w1|]; [|done].
    destruct (Embedding_forward _ x2) as [w2|]; [|done].
    destruct (cove_encoder self) as [cove|]; [|done].
    cbn [mbind result_bind getattr].
    destruct (use_qemb (args self)).
    + destruct (qemb_match self) as [q|]; [|done].
      cbn [mbind result_bind getattr]. intros Hr.
      exists w1, w2, cove, (Some q). repeat split; eauto. congruence.
    + cbn [mbind result_bind]. intros Hr.
      exists w1, w2, cove, None. repeat split; eauto. congruence.
  - intros (w1 & w2 & cove & qemb & -> & -> & -> & Hq & ->).
    cbn [mbind result_bind getattr].
    destruct (use_qemb (args self)).
    + destruct Hq as (q & -> & ->). reflexivity.
    + subst qemb. reflexivity.
Qed.

(** The pass of the small reader over a document of a real token and a
padding token and a question of one real token. *)
Lemma small_reader_scores (training : bool) :
  scores no_dropout small_reader training
    [] [false; true] [false] [[1]; [0]] [[1]] const_cove None
  = Some (if training then (log_eps <$> [1; 0], log_eps <$> [1; 0])
          else ([1; 0], [1; 0])).
Proof. eval_small_reader. eval_rows. reflexivity. Qed.

Lemma small_reader_forward (training : bool) :
  forward no_dropout small_reader training
    [1%nat; 0%nat] [] [false; true] [1%nat] [false]
  = Ok (Some (if training then (log_eps <$> [1; 0], log_eps <$> [1; 0])
              else ([1; 0], [1; 0]))).
Proof.
  unfold forward. cbn [Embedding_forward mapM embedding small_reader weight
    lookup list_lookup mbind result_bind mret result_ret getattr
    cove_encoder use_qemb args].
  by rewrite small_reader_scores.
Qed.

(** *** The decoder *)

Lemma vadd_length (u : vec) : ∀ v,
  length (vadd u v) = (length u `max` length v)%nat.
Proof.
  induction u as [|a u IH]; intros [|b v]; simpl; try done.
  by rewrite IH.
Qed.

Lemma vadd_nth (u : vec) : ∀ v k,
  nth k (vadd u v) 0 = nth k u 0 + nth k v 0.
Proof.
  induction u as [|a u IH]; intros [|b v] [|k]; simpl; try lra.
  apply IH.
Qed.

Lemma vscale_nth (c : R) (u : vec) : ∀ k,
  nth k (vscale c u) 0 = c * nth k u 0.
Proof.
  unfold vscale. induction u as [|a u IH]; intros [|k]; simpl; try lra.
  apply IH.
Qed.

(** The model of the weighted sum computes what the spec words. *)
Lemma weighted_sum_spec (weights : vec) : ∀ x,
  is_weighted_sum weights x (weighted_sum weights x).
Proof.
  unfold is_weighted_sum, weighted_sum.
  induction weights as [|c weights IH]; intros [|u x].
  - split; [done|]. by intros [|k].
  - split; [done|]. by intros [|k].
  - split; [done|]. by intros [|k].
  - destruct (IH x) as [IHl IHn]. cbn [zip_with foldr length take width].
    split.
    + rewrite vadd_length, IHl. unfold vscale. by rewrite length_fmap.
    + intros k. rewrite vadd_nth, vscale_nth, IHn. reflexivity.
Qed.

(** The two entries of a softmax over two scores determine the difference
of the scores. *)
Lemma softmax_two_injective (s t s' t' : R) :
  exp s / (exp s + exp t) = exp s' / (exp s' + exp t') →
  s - t = s' - t'.
Proof.
  intros H.
  pose proof (exp_pos s). pose proof (exp_pos t).
  pose proof (exp_pos s'). pose proof (exp_pos t').
  assert (E : exp s * exp t' = exp s' * exp t).
  { assert (E : exp s * (exp s' + exp t') = exp s' * (exp s + exp t)).
    { apply (Rmult_eq_reg_r (/ ((exp s + exp t) * (exp s' + exp t')))).
      - transitivity (exp s / (exp s + exp t)); [field; lra|].
        rewrite H. field. lra.
      - apply Rinv_neq_0_compat. nra. }
    lra. }
  rewrite <- !exp_plus in E. apply exp_inv in E. lra.
Qed.

(** A reader whose fused document hidden states are [[1]] and [[0]] over a
document of two tokens, with the weight [a] in its start attention; it is
the same reader for every [a], but for its start attention. *)
Definition two_position_reader (a : R) : FusionNetReader := {|
  args := {| dropout_emb := 0; use_qemb := false; num_features := 0 |};
  embedding := {| weight := [[0]; [1]] |};
  cove_encoder := Some const_cove;
  qemb_match := None;
  reading_low_level_doc_rnn := const_rnn [3];
  reading_low_level_question_rnn := const_rnn [3];
  reading_high_level_doc_rnn := const_rnn [4];
  reading_high_level_question_rnn := const_rnn [4];
  understanding_question_rnn := const_rnn [1];
  low_level_matrix_attention_layer := relu_attn;
  high_level_matrix_attention_layer := relu_attn;
  understanding_matrix_attention_layer := relu_attn;
  multi_level_rnn := const_rnn [6];
  self_boosted_matrix_attention_layer := relu_attn;
  understanding_doc_rnn := λ _ _ _, [[1]; [0]];
  question_self_attn := {| lsa_weight := [1]; lsa_bias := 0 |};
  start_attn :=
    {| bil_linear := {| lin_weight := [[a]]; lin_bias := None |} |};
  start_gru := {| gru_cell := λ x _, x |};
  end_attn := {| bil_linear := unit_linear |};
|}.

Lemma two_position_hiddens (a : R) :
  understanding_doc_hiddens no_dropout (two_position_reader a) false
    [] [false; false] [false] [[1]; [1]] [[1]] const_cove None
  = Some [[1]; [0]].
Proof.
  eval_small_reader. eval_rows.
  rewrite !masked_softmax_two. reflexivity.
Qed.

Lemma two_position_question (a : R) :
  question_hidden no_dropout (two_position_reader a) false
    [false] [[1]] const_cove
  = Some [1].
Proof.
  eval_small_reader. eval_rows. unfold weighted_avg, weighted_sum. simpl.
  do 2 f_equal. lra.
Qed.

Lemma bilinear_scores_two (a y : R) :
  bilinear_scores {| bil_linear := {| lin_weight := [[a]]; lin_bias := None |} |}
    [[1]; [0]] [y]
  = [a * y; 0].
Proof.
  unfold bilinear_scores, Linear_forward, dot, vmul, Rsum. simpl.
  f_equal; [lra|]. f_equal. lra.
Qed.

Lemma weighted_avg_two (p1 p2 : R) : weighted_avg [[1]; [0]] [p1; p2] = [p1].
Proof.
  unfold weighted_avg, weighted_sum, vscale. simpl. f_equal. lra.
Qed.

(** The start and the end distribution of [two_position_reader a]: the
first entry of the start distribution is the score of the first entry of
the end distribution. *)
Lemma two_position_scores (a : R) :
  ∃ p1 p2 e2 : R,
    scores no_dropout (two_position_reader a) false
      [] [false; false] [false] [[1]; [1]] [[1]] const_cove None
    = Some ([p1; p2], [exp p1 / (exp p1 + exp 0); e2]) ∧
    p1 = exp a / (exp a + exp 0).
Proof.
  unfold scores, end_scores, memory_hidden, gru_input, start_scores.
  rewrite two_position_hiddens, two_position_question.
  cbn [mbind option_bind]. unfold BilinearSeqAttn_forward.
  cbn [start_attn end_attn start_gru two_position_reader].
  rewrite bilinear_scores_two, masked_softmax_two.
  cbn [mbind option_bind]. rewrite weighted_avg_two.
  cbn [GRU_forward gru_cell snd]. unfold unit_linear.
  rewrite bilinear_scores_two, masked_softmax_two.
  cbn [mbind option_bind].
  replace (a * 1) with a by lra.
  replace (1 * (exp a / (exp a + exp 0))) with (exp a / (exp a + exp 0))
    by lra.
  by eexists _, _, _.
Qed.

(** C5: whenever [forward] returns numbers, they come from the two stages
of the decoder, over the fused document hidden states [H] and the hidden
states [U] of the question.  The pooled question vector [q] is the sum of
the vectors of [U] weighted by the softmax, masked by the question padding,
of their linear scores.  The start distribution is the softmax, masked by
the document padding, of the bilinear scores of [H] with [q].  The memory
vector is the hidden state after the one step of the GRU whose input is the
sum of the vectors of [H] weighted by the start distribution and whose
initial hidden state is [q].  The end distribution is the softmax, masked
by the document padding, of the bilinear scores of [H] with the memory
vector.  (In training mode both distributions are returned through
[log(p + 1e-8)].)  So the end scores depend on the start scores: two
readers that differ in their start attention only return different end
scores on one input. *)
Theorem forward_decoder_two_stage :
  (∀ dropout self training x1 x1_f x1_mask x2 x2_mask (s e : vec),
     forward dropout self training x1 x1_f x1_mask x2 x2_mask
     = Ok (Some (s, e)) →
     ∃ x1_word_emb x2_word_emb cove qemb (H : vseq)
       (w q p_start g memory p_end : vec),
       Embedding_forward (embedding self) x1 = Ok x1_word_emb ∧
       Embedding_forward (embedding self) x2 = Ok x2_word_emb ∧
       cove_encoder self = Some cove ∧
       attached_qemb self qemb ∧
       understanding_doc_hiddens dropout self training x1_f x1_mask
         x2_mask x1_word_emb x2_word_emb cove qemb = Some H ∧
       let U := understanding_question_hiddens dropout self training
                  x2_mask x2_word_emb cove in
       is_masked_softmax
         ((λ u, dot (lsa_weight (question_self_attn self)) u
                + lsa_bias (question_self_attn self)) <$> U) x2_mask w ∧
       is_weighted_sum w U q ∧
       is_masked_softmax
         ((λ h, dot h (Linear_forward (bil_linear (start_attn self)) q))
            <$> H) x1_mask p_start ∧
       is_weighted_sum p_start H g ∧
       memory = gru_cell (start_gru self) g q ∧
       is_masked_softmax
         ((λ h, dot h (Linear_forward (bil_linear (end_attn self)) memory))
            <$> H) x1_mask p_end ∧
       (s, e) = if training
                then ((λ p, ln (p + 1e-8)) <$> p_start,
                      (λ p, ln (p + 1e-8)) <$> p_end)
                else (p_start, p_end)) ∧
  (∃ s e s' e' : vec,
     forward no_dropout (two_position_reader 0) false
       [1%nat; 1%nat] [] [false; false] [1%nat] [false] = Ok (Some (s, e)) ∧
     forward no_dropout (two_position_reader 1) false
       [1%nat; 1%nat] [] [false; false] [1%nat] [false] = Ok (Some (s', e')) ∧
     s ≠ s' ∧ e ≠ e').
Proof.
  split.
  - intros dropout self training x1 x1_f x1_mask x2 x2_mask s e Hf.
    apply forward_Ok in Hf.
    destruct Hf as (w1 & w2 & cove & qemb & H1 & H2 & Hc & Hq & Hs).
    symmetry in Hs. unfold scores in Hs.
    destruct (start_scores dropout self training x1_f x1_mask x2_mask
                w1 w2 cove qemb) as [p_start|] eqn:Estart; [|done].
    destruct (end_scores dropout self training x1_f x1_mask x2_mask
                w1 w2 cove qemb) as [p_end|] eqn:Eend; [|done].
    cbn [mbind option_bind] in Hs. apply (inj Some) in Hs.
    destruct (decoder_stages _ _ _ _ _ _ _ _ _ _ _ _ Estart Eend)
      as (H & q & HH & Hq' & Hps & Hpe).
    unfold question_hidden, q_merge_weights, LinearSeqAttn_forward in Hq'.
    destruct (masked_softmax _ x2_mask) as [w|] eqn:Ew; [|done].
    cbn [mbind option_bind] in Hq'. apply (inj Some) in Hq'.
    exists w1, w2, cove, qemb, H, w, q, p_start,
      (weighted_sum p_start H),
      (gru_cell (start_gru self) (weighted_sum p_start H) q), p_end.
    repeat (split; [assumption|]). cbn zeta.
    split; [by apply masked_softmax_spec|].
    split; [rewrite <- Hq'; apply weighted_sum_spec|].
    split; [by apply masked_softmax_spec|].
    split; [apply weighted_sum_spec|].
    split; [reflexivity|].
    split; [by apply masked_softmax_spec|].
    rewrite <- Hs. by destruct training.
  - destruct (two_position_scores 0) as (p1 & p2 & e2 & Hs & Hp).
    destruct (two_position_scores 1) as (p1' & p2' & e2' & Hs' & Hp').
    exists [p1; p2], [exp p1 / (exp p1 + exp 0); e2],
      [p1'; p2'], [exp p1' / (exp p1' + exp 0); e2'].
    assert (Hne : p1 ≠ p1').
    { rewrite Hp, Hp'. intros E%softmax_two_injective. lra. }
    split; [|split; [|split]].
    + unfold forward. cbn [Embedding_forward mapM embedding
        two_position_reader weight lookup list_lookup mbind result_bind
        mret result_ret getattr cove_encoder use_qemb args].
      by rewrite Hs.
    + unfold forward. cbn [Embedding_forward mapM embedding
        two_position_reader weight lookup list_lookup mbind result_bind
        mret result_ret getattr cove_encoder use_qemb args].
      by rewrite Hs'.
    + intros [= E _]. done.
    + intros [= E _]. apply softmax_two_injective in E. lra.
Qed.

Lemma forward_decoder_two_stage_witness :
  ∃ (H : vseq) (w q p_start g memory p_end : vec),
    is_weighted_sum w
      (understanding_question_hiddens no_dropout small_reader false
         [false] [[1]] const_cove) q ∧
    is_masked_softmax
      ((λ h, dot h (Linear_forward (bil_linear (start_attn small_reader)) q))
         <$> H) [false; true] p_start ∧
    is_weighted_sum p_start H g ∧
    memory = gru_cell (start_gru small_reader) g q ∧
    is_masked_softmax
      ((λ h, dot h (Linear_forward (bil_linear (end_attn small_reader))
                      memory)) <$> H) [false; true] p_end ∧
    ([1; 0], [1; 0]) = (p_start, p_end).
Proof.
  destruct (proj1 forward_decoder_two_stage no_dropout small_reader false
              [1%nat; 0%nat] [] [false; true] [1%nat] [false] [1; 0] [1; 0]
              (small_reader_forward false))
    as (w1 & w2 & cove & qemb & H & w & q & p_start & g & memory & p_end
        & E1 & E2 & Ec & _ & _ & _ & Hq & Hs & Hg & Hm & He & Hr).
  injection E1 as <-. injection E2 as <-. injection Ec as <-.
  exists H, w, q, p_start, g, memory, p_end.
  exact (conj Hq (conj Hs (conj Hg (conj Hm (conj He Hr))))).
Defined.

(** *** Training and inference *)

(** A recurrent layer whose output does not depend on the mode: its dropout
is off. *)
Definition mode_free (f : StackedBRNN) : Prop :=
  ∀ x m, f true x m = f false x m.

(** Dropout has no effect: the rate of the embedding dropout is not
positive (or [F.dropout] drops nothing), and so for the recurrent layers,
the sub-modules of the reader that have dropout. *)
Record dropout_disabled (dropout : nat → R → bool → vseq → vseq)
    (self : FusionNetReader) : Prop := {
  dd_emb : dropout_emb (args self) <= 0 ∨
           ∀ k p x, dropout k p true x = dropout k p false x;
  dd_low_doc : mode_free (reading_low_level_doc_rnn self);
  dd_low_question : mode_free (reading_low_level_question_rnn self);
  dd_high_doc : mode_free (reading_high_level_doc_rnn self);
  dd_high_question : mode_free (reading_high_level_question_rnn self);
  dd_understanding_question : mode_free (understanding_question_rnn self);
  dd_multi_level : mode_free (multi_level_rnn self);
  dd_understanding_doc : mode_free (understanding_doc_rnn self);
}.

(** [log(p + 1e-8)] on every entry of the two distributions. *)
Definition log_scores (r : vec * vec) : vec * vec :=
  ((λ p, ln (p + 1e-8)) <$> r.1, (λ p, ln (p + 1e-8)) <$> r.2).

Definition result_map {A B : Type} (f : A → B) (r : result A) : result B :=
  match r with Ok a => Ok (f a) | Raise e => Raise e end.

Lemma dropout_embeddings_mode dropout self (k : nat) (x : vseq) :
  dropout_disabled dropout self →
  dropout_embeddings dropout self true k x
  = dropout_embeddings dropout self false k x.
Proof.
  intros K. unfold dropout_embeddings.
  destruct (Rlt_dec _ _) as [Hp|_]; [|done].
  destruct (dd_emb _ _ K) as [Hle|Heq]; [lra|apply Heq].
Qed.

Section Modes.
Variable dropout : nat → R → bool → vseq → vseq.
Variable self : FusionNetReader.
Variables (x1_f : vseq) (x1_mask x2_mask : mask).
Variables (x1_word_emb x2_word_emb : vseq).
Variable cove : MTLSTM.
Variable qemb : option SeqAttnMatch.
Hypothesis K : dropout_disabled dropout self.

(** A value of the pass on the document side, and one on the question side,
in the mode [t]. *)
Local Abbreviation doc f t :=
  (f dropout self t x1_f x1_mask x2_mask x1_word_emb x2_word_emb cove qemb).
Local Abbreviation que f t := (f dropout self t x2_mask x2_word_emb cove).

Lemma x1_emb_mode :
  x1_emb dropout self true x1_mask x1_word_emb cove
  = x1_emb dropout self false x1_mask x1_word_emb cove.
Proof. unfold x1_emb. by apply dropout_embeddings_mode. Qed.

Lemma x2_emb_mode : que x2_emb true = que x2_emb false.
Proof. unfold x2_emb. by apply dropout_embeddings_mode. Qed.

Lemma low_level_doc_hiddens_mode :
  doc low_level_doc_hiddens true = doc low_level_doc_hiddens false.
Proof.
  unfold low_level_doc_hiddens, drnn_input.
  by rewrite (dd_low_doc _ _ K), x1_emb_mode.
Qed.

Lemma low_level_question_hiddens_mode :
  que low_level_question_hiddens true = que low_level_question_hiddens false.
Proof.
  unfold low_level_question_hiddens.
  by rewrite (dd_low_question _ _ K), x2_emb_mode.
Qed.

Lemma high_level_doc_hiddens_mode :
  doc high_level_doc_hiddens true = doc high_level_doc_hiddens false.
Proof.
  unfold high_level_doc_hiddens.
  by rewrite (dd_high_doc _ _ K), low_level_doc_hiddens_mode.
Qed.

Lemma high_level_question_hiddens_mode :
  que high_level_question_hiddens true = que high_level_question_hiddens false.
Proof.
  unfold high_level_question_hiddens.
  by rewrite (dd_high_question _ _ K), low_level_question_hiddens_mode.
Qed.

Lemma understanding_question_hiddens_mode :
  que understanding_question_hiddens true
  = que understanding_question_hiddens false.
Proof.
  unfold understanding_question_hiddens.
  by rewrite (dd_understanding_question _ _ K),
    low_level_question_hiddens_mode, high_level_question_hiddens_mode.
Qed.

Lemma history_of_doc_word_mode :
  doc history_of_doc_word true = doc history_of_doc_word false.
Proof.
  unfold history_of_doc_word.
  by rewrite low_level_doc_hiddens_mode, high_level_doc_hiddens_mode.
Qed.

Lemma history_of_question_word_mode :
  que history_of_question_word true = que history_of_question_word false.
Proof.
  unfold history_of_question_word.
  by rewrite low_level_question_hiddens_mode.
Qed.

Lemma doc_question_vectors_mode :
  doc low_level_doc_question_vectors true
  = doc low_level_doc_question_vectors false ∧
  doc high_level_doc_question_vectors true
  = doc high_level_doc_question_vectors false ∧
  doc understanding_doc_question_vectors true
  = doc understanding_doc_question_vectors false.
Proof.
  unfold low_level_doc_question_vectors, high_level_doc_question_vectors,
    understanding_doc_question_vectors.
  by rewrite history_of_doc_word_mode, history_of_question_word_mode,
    low_level_question_hiddens_mode, high_level_question_hiddens_mode,
    understanding_question_hiddens_mode.
Qed.

Lemma fa_multi_level_doc_hiddens_mode :
  doc fa_multi_level_doc_hiddens true = doc fa_multi_level_doc_hiddens false.
Proof.
  destruct doc_question_vectors_mode as (E1 & E2 & E3).
  unfold fa_multi_level_doc_hiddens.
  rewrite E1, E2, E3, low_level_doc_hiddens_mode, high_level_doc_hiddens_mode.
  destruct (doc low_level_doc_question_vectors false) as [v1|]; [|done].
  destruct (doc high_level_doc_question_vectors false) as [v2|]; [|done].
  destruct (doc understanding_doc_question_vectors false) as [v3|]; [|done].
  cbn [mbind option_bind]. by rewrite (dd_multi_level _ _ K).
Qed.

Lemma history_of_doc_word2_mode :
  doc history_of_doc_word2 true = doc history_of_doc_word2 false.
Proof.
  destruct doc_question_vectors_mode as (E1 & E2 & E3).
  unfold history_of_doc_word2.
  by rewrite E1, E2, E3, fa_multi_level_doc_hiddens_mode,
    low_level_doc_hiddens_mode, high_level_doc_hiddens_mode.
Qed.

Lemma self_boosted_vectors_mode :
  doc self_boosted_vectors true = doc self_boosted_vectors false.
Proof.
  unfold self_boosted_vectors.
  by rewrite history_of_doc_word2_mode, fa_multi_level_doc_hiddens_mode.
Qed.

Lemma understanding_doc_hiddens_mode :
  doc understanding_doc_hiddens true = doc understanding_doc_hiddens false.
Proof.
  unfold understanding_doc_hiddens.
  rewrite fa_multi_level_doc_hiddens_mode, self_boosted_vectors_mode.
  destruct (doc fa_multi_level_doc_hiddens false) as [fa|]; [|done].
  destruct (doc self_boosted_vectors false) as [sb|]; [|done].
  cbn [mbind option_bind]. by rewrite (dd_understanding_doc _ _ K).
Qed.

Lemma question_hidden_mode :
  que question_hidden true = que question_hidden false.
Proof.
  unfold question_hidden, q_merge_weights.
  by rewrite understanding_question_hiddens_mode.
Qed.

(** With dropout disabled, the distributions before the conversion are the
same in both modes. *)
Lemma span_distributions_mode :
  doc start_scores true = doc start_scores false ∧
  doc end_scores true = doc end_scores false.
Proof.
  assert (Es : doc start_scores true = doc start_scores false).
  { unfold start_scores.
    by rewrite understanding_doc_hiddens_mode, question_hidden_mode. }
  split; [exact Es|].
  unfold end_scores, memory_hidden, gru_input.
  by rewrite Es, understanding_doc_hiddens_mode, question_hidden_mode.
Qed.

Lemma scores_mode :
  doc scores true = option_map log_scores (doc scores false).
Proof.
  destruct span_distributions_mode as [Es Ee].
  unfold scores. rewrite Es, Ee.
  destruct (doc start_scores false) as [s|]; [|done].
  destruct (doc end_scores false) as [e|]; [|done].
  reflexivity.
Qed.

End Modes.

(** A reader with a layer that computes differently in the two modes, as
a layer with dropout does: over a document of two tokens the fused document
hidden states are [[1]] and [[0]] in training mode, [[0]] and [[0]] in
inference mode. *)
Definition mode_reader : FusionNetReader := {|
  args := {| dropout_emb := 0; use_qemb := false; num_features := 0 |};
  embedding := {| weight := [[0]; [1]] |};
  cove_encoder := Some const_cove;
  qemb_match := None;
  reading_low_level_doc_rnn := const_rnn [3];
  reading_low_level_question_rnn := const_rnn [3];
  reading_high_level_doc_rnn := const_rnn [4];
  reading_high_level_question_rnn := const_rnn [4];
  understanding_question_rnn := const_rnn [1];
  low_level_matrix_attention_layer := relu_attn;
  high_level_matrix_attention_layer := relu_attn;
  understanding_matrix_attention_layer := relu_attn;
  multi_level_rnn := const_rnn [6];
  self_boosted_matrix_attention_layer := relu_attn;
  understanding_doc_rnn :=
    λ (t : bool) _ _, if t then [[1]; [0]] else [[0]; [0]];
  question_self_attn := {| lsa_weight := [1]; lsa_bias := 0 |};
  start_attn :=
    {| bil_linear := {| lin_weight := [[1]]; lin_bias := None |} |};
  start_gru := {| gru_cell := λ x _, x |};
  end_attn := {| bil_linear := unit_linear |};
|}.

Lemma mode_reader_hiddens (t : bool) :
  understanding_doc_hiddens no_dropout mode_reader t
    [] [false; false] [false] [[1]; [1]] [[1]] const_cove None
  = Some (if t then [[1]; [0]] else [[0]; [0]]).
Proof.
  destruct t; eval_small_reader; eval_rows;
    rewrite !masked_softmax_two; reflexivity.
Qed.

Lemma mode_reader_question (t : bool) :
  question_hidden no_dropout mode_reader t [false] [[1]] const_cove
  = Some [1].
Proof.
  eval_small_reader. eval_rows. unfold weighted_avg, weighted_sum. simpl.
  do 2 f_equal. lra.
Qed.

Lemma bilinear_scores_zero (a y : R) :
  bilinear_scores {| bil_linear := {| lin_weight := [[a]]; lin_bias := None |} |}
    [[0]; [0]] [y]
  = [0; 0].
Proof.
  unfold bilinear_scores, Linear_forward, dot, vmul, Rsum. simpl.
  f_equal; [lra|]. f_equal. lra.
Qed.

Lemma weighted_avg_zero (p1 p2 : R) : weighted_avg [[0]; [0]] [p1; p2] = [0].
Proof.
  unfold weighted_avg, weighted_sum, vscale. simpl. f_equal. lra.
Qed.

(** The first start score of [mode_reader], before the conversion, in the
two modes. *)
Lemma mode_reader_scores :
  (∃ (p2 : R) (e : vec),
     scores no_dropout mode_reader true
       [] [false; false] [false] [[1]; [1]] [[1]] const_cove None
     = Some (log_eps <$> [exp 1 / (exp 1 + exp 0); p2], log_eps <$> e)) ∧
  (∃ (p2 : R) (e : vec),
     scores no_dropout mode_reader false
       [] [false; false] [false] [[1]; [1]] [[1]] const_cove None
     = Some ([exp 0 / (exp 0 + exp 0); p2], e)).
Proof.
  split.
  - unfold scores, end_scores, memory_hidden, gru_input, start_scores.
    rewrite mode_reader_hiddens, mode_reader_question.
    cbn [mbind option_bind]. unfold BilinearSeqAttn_forward.
    cbn [start_attn end_attn start_gru mode_reader].
    rewrite bilinear_scores_two, masked_softmax_two.
    cbn [mbind option_bind]. rewrite weighted_avg_two.
    cbn [GRU_forward gru_cell snd]. unfold unit_linear.
    rewrite bilinear_scores_two, masked_softmax_two.
    cbn [mbind option_bind]. replace (1 * 1) with 1 by lra.
    by eexists _, _.
  - unfold scores, end_scores, memory_hidden, gru_input, start_scores.
    rewrite mode_reader_hiddens, mode_reader_question.
    cbn [mbind option_bind]. unfold BilinearSeqAttn_forward.
    cbn [start_attn end_attn start_gru mode_reader].
    rewrite bilinear_scores_zero, masked_softmax_two.
    cbn [mbind option_bind]. rewrite weighted_avg_zero.
    cbn [GRU_forward gru_cell snd]. unfold unit_linear.
    rewrite bilinear_scores_zero, masked_softmax_two.
    cbn [mbind option_bind]. by eexists _, _.
Qed.

(** C6: the mode changes the final conversion only, up to dropout.  With
dropout disabled in the sub-modules that have it, what [forward] returns in
training mode is [ln(p + 1e-8)] of every entry [p] of what it returns in
inference mode (and it raises, or returns [NaN], in one mode exactly when it
does in the other).  What it returns in inference mode are the softmax
probabilities themselves: the softmax, masked by the document padding, of
bilinear scores of the fused document hidden states.  The conversion is not
the identity: in training mode the score of a padding position of the
document is [ln(1e-8)], where its probability is 0.  And `up to dropout` is
needed: with a layer that computes differently in the two modes, the
training output is not [ln(p + 1e-8)] of the inference output. *)
Theorem training_mode_converts_scores :
  (∀ dropout self x1 x1_f x1_mask x2 x2_mask,
     dropout_disabled dropout self →
     forward dropout self true x1 x1_f x1_mask x2 x2_mask
     = result_map
         (option_map
            (λ r : vec * vec,
               ((λ p, ln (p + 1e-8)) <$> r.1, (λ p, ln (p + 1e-8)) <$> r.2)))
         (forward dropout self false x1 x1_f x1_mask x2 x2_mask)) ∧
  (∀ dropout self x1 x1_f x1_mask x2 x2_mask s e,
     forward dropout self false x1 x1_f x1_mask x2 x2_mask
     = Ok (Some (s, e)) →
     ∃ (H : vseq) (q memory : vec),
       is_masked_softmax
         ((λ h, dot h (Linear_forward (bil_linear (start_attn self)) q))
            <$> H) x1_mask s ∧
       is_masked_softmax
         ((λ h, dot h (Linear_forward (bil_linear (end_attn self)) memory))
            <$> H) x1_mask e) ∧
  (∀ dropout self x1 x1_f x1_mask x2 x2_mask s e i p,
     forward dropout self true x1 x1_f x1_mask x2 x2_mask
     = Ok (Some (s, e)) →
     x1_mask !! i = Some true →
     s !! i = Some p ∨ e !! i = Some p →
     p = ln (0 + 1e-8)) ∧
  forward no_dropout mode_reader true
    [1%nat; 1%nat] [] [false; false] [1%nat] [false]
  ≠ result_map
      (option_map
         (λ r : vec * vec,
            ((λ p, ln (p + 1e-8)) <$> r.1, (λ p, ln (p + 1e-8)) <$> r.2)))
      (forward no_dropout mode_reader false
         [1%nat; 1%nat] [] [false; false] [1%nat] [false]).
Proof.
  split; [|split; [|split]].
  - intros dropout self x1 x1_f x1_mask x2 x2_mask K. unfold forward.
    destruct (Embedding_forward _ x1) as [w1|]; [|done].
    destruct (Embedding_forward _ x2) as [w2|]; [|done].
    destruct (cove_encoder self) as [cove|]; [|done].
    cbn [mbind result_bind getattr].
    destruct (use_qemb (args self)).
    + destruct (qemb_match self) as [q|]; [|done].
      cbn [mbind result_bind getattr result_map].
      by rewrite (scores_mode _ _ _ _ _ _ _ _ _ K).
    + cbn [mbind result_bind result_map].
      by rewrite (scores_mode _ _ _ _ _ _ _ _ _ K).
  - intros dropout self x1 x1_f x1_mask x2 x2_mask s e Hf.
    apply forward_Ok in Hf.
    destruct Hf as (w1 & w2 & cove & qemb & _ & _ & _ & _ & Hs).
    symmetry in Hs. unfold scores in Hs.
    destruct (start_scores dropout self false x1_f x1_mask x2_mask
                w1 w2 cove qemb) as [p_start|] eqn:Estart; [|done].
    destruct (end_scores dropout self false x1_f x1_mask x2_mask
                w1 w2 cove qemb) as [p_end|] eqn:Eend; [|done].
    cbn [mbind option_bind] in Hs. injection Hs as -> ->.
    destruct (decoder_stages _ _ _ _ _ _ _ _ _ _ _ _ Estart Eend)
      as (H & q & _ & _ & Hps & Hpe).
    exists H, q, (gru_cell (start_gru self) (weighted_sum s H) q).
    split; by apply masked_softmax_spec.
  - intros dropout self x1 x1_f x1_mask x2 x2_mask s e i p Hf Hi Hp.
    apply forward_Ok in Hf.
    destruct Hf as (w1 & w2 & cove & qemb & _ & _ & _ & _ & Hs).
    symmetry in Hs. unfold scores in Hs.
    destruct (start_scores dropout self true x1_f x1_mask x2_mask
                w1 w2 cove qemb) as [p_start|] eqn:Estart; [|done].
    destruct (end_scores dropout self true x1_f x1_mask x2_mask
                w1 w2 cove qemb) as [p_end|] eqn:Eend; [|done].
    cbn [mbind option_bind] in Hs. injection Hs as <- <-.
    destruct (decoder_stages _ _ _ _ _ _ _ _ _ _ _ _ Estart Eend)
      as (H & q & _ & _ & Hps & Hpe).
    unfold log_eps in Hp.
    destruct Hp as [Hp|Hp]; rewrite list_lookup_fmap in Hp.
    + destruct (p_start !! i) as [p0|] eqn:Hp0; [|done].
      injection Hp as <-.
      by rewrite (masked_softmax_padding _ _ _ _ _ Hps Hp0 Hi).
    + destruct (p_end !! i) as [p0|] eqn:Hp0; [|done].
      injection Hp as <-.
      by rewrite (masked_softmax_padding _ _ _ _ _ Hpe Hp0 Hi).
  - destruct mode_reader_scores as [(p2 & e & Ht) (p2' & e' & Hi)].
    unfold forward. cbn [Embedding_forward mapM embedding mode_reader weight
      lookup list_lookup mbind result_bind mret result_ret getattr
      cove_encoder use_qemb args].
    rewrite Ht, Hi. cbn [result_map option_map fst snd].
    unfold log_eps. rewrite !fmap_cons. intros [= E _].
    pose proof (exp_pos 0). pose proof (exp_pos 1).
    assert (0 < exp 1 / (exp 1 + exp 0)) by (apply Rdiv_lt_0_compat; lra).
    assert (0 < exp 0 / (exp 0 + exp 0)) by (apply Rdiv_lt_0_compat; lra).
    apply ln_inv in E; [|lra..].
    assert (E' : exp 1 / (exp 1 + exp 0) = exp 0 / (exp 0 + exp 0)) by lra.
    apply softmax_two_injective in E'. lra.
Qed.

Lemma small_reader_dropout_disabled : dropout_disabled no_dropout small_reader.
Proof. split; try done. left. simpl. lra. Qed.

Lemma training_mode_converts_scores_witness :
  forward no_dropout small_reader true
    [1%nat; 0%nat] [] [false; true] [1%nat] [false]
  = result_map
      (option_map
         (λ r : vec * vec,
            ((λ p, ln (p + 1e-8)) <$> r.1, (λ p, ln (p + 1e-8)) <$> r.2)))
      (forward no_dropout small_reader false
         [1%nat; 0%nat] [] [false; true] [1%nat] [false]).
Proof.
  apply (proj1 training_mode_converts_scores no_dropout small_reader
           [1%nat; 0%nat] [] [false; true] [1%nat] [false]).
  exact small_reader_dropout_disabled.
Defined.

(** *** Padding of the document *)




(** *** The padding row of the word embedding *)

Lemma zeros_length (d : nat) : length (zeros d) = d.
Proof. apply repeat_length. Qed.

(** The constructor leaves the row of the padding index at zero. *)
Lemma Embedding_init_padding_row n d k init (emb : Embedding) :
  Embedding_init n d k init = Ok emb → weight emb !! k = Some (zeros d).
Proof.
  unfold Embedding_init. case_decide as Hk; [|done]. intros [= <-].
  cbn [weight]. apply list_lookup_insert_eq.
  by rewrite length_fmap, length_seq.
Qed.

Lemma Embedding_init_length n d k init (emb : Embedding) :
  Embedding_init n d k init = Ok emb → length (weight emb) = n.
Proof.
  unfold Embedding_init. case_decide as Hk; [|done]. intros [= <-].
  cbn [weight]. by rewrite length_insert, length_fmap, length_seq.
Qed.

(** The forward pass of the embedding looks every token up in the weight. *)
Lemma Embedding_forward_lookup (emb : Embedding) (x : list nat) : ∀ E i t,
  Embedding_forward emb x = Ok E → x !! i = Some t →
  E !! i = weight emb !! t.
Proof.
  unfold Embedding_forward.
  induction x as [|t0 x IH]; intros E i t; [done|]. cbn [mapM].
  destruct (weight emb !! t0) as [v|] eqn:Hv; [|done].
  cbn [mbind result_bind].
  destruct (mapM _ x) as [E'|]; [|done].
  cbn [mbind result_bind mret result_ret]. intros [= <-] Hi.
  destruct i as [|i]; simpl in *.
  - injection Hi as <-. by rewrite Hv.
  - by apply IH.
Qed.

(** It returns when every token is an index of the weight. *)
Lemma Embedding_forward_Ok (emb : Embedding) (x : list nat) :
  Forall (λ t, (t < length (weight emb))%nat) x →
  ∃ E, Embedding_forward emb x = Ok E.
Proof.
  unfold Embedding_forward. induction 1 as [|t x Ht _ [E' IH]]; cbn [mapM].
  - by eexists.
  - destruct (lookup_lt_is_Some_2 _ _ Ht) as [v ->].
    rewrite IH. by eexists.
Qed.

(** One call of [forward], with the mode the module is in. *)
Record call : Type := {
  call_training : bool;
  call_x1 : list nat;
  call_x1_f : vseq;
  call_x1_mask : mask;
  call_x2 : list nat;
  call_x2_mask : mask;
}.

(** [forward] assigns no attribute of [self] and none of its sub-modules
writes to its parameters: a call leaves the module as it found it and
returns the scores. *)
Definition run_call (dropout : nat → R → bool → vseq → vseq)
    (self : FusionNetReader) (c : call)
    : FusionNetReader * result (option (vec * vec)) :=
  (self, forward dropout self (call_training c) (call_x1 c) (call_x1_f c)
           (call_x1_mask c) (call_x2 c) (call_x2_mask c)).

(** The module after a sequence of calls. *)
Definition run_calls (dropout : nat → R → bool → vseq → vseq)
    (self : FusionNetReader) (cs : list call) : FusionNetReader :=
  foldl (λ s c, (run_call dropout s c).1) self cs.

Lemma run_calls_embedding dropout (cs : list call) : ∀ self,
  embedding (run_calls dropout self cs) = embedding self.
Proof.
  unfold run_calls. induction cs as [|c cs IH]; intros self; [done|].
  cbn [foldl]. by rewrite IH.
Qed.

(** C8: token id 0 is the padding index of the word embedding.  For a
reader whose embedding is built by [nn.Embedding(vocab_size, embedding_dim,
padding_idx=0)], after any number of forward passes, the embedding of a
sequence of tokens of the vocabulary has the zero vector of dimension
[embedding_dim] at every position that holds token 0. *)
Theorem padding_token_embeds_to_zero dropout
    (vocab_size embedding_dim : nat) init (self : FusionNetReader)
    (cs : list call) (x : list nat) :
  Embedding_init vocab_size embedding_dim 0 init = Ok (embedding self) →
  Forall (λ t, (t < vocab_size)%nat) x →
  ∃ E, Embedding_forward (embedding (run_calls dropout self cs)) x = Ok E ∧
       ∀ i, x !! i = Some 0%nat →
            E !! i = Some (zeros embedding_dim) ∧
            length (zeros embedding_dim) = embedding_dim.
Proof.
  intros Hinit Hx. rewrite run_calls_embedding.
  destruct (Embedding_forward_Ok (embedding self) x) as [E HE].
  { by rewrite (Embedding_init_length _ _ _ _ _ Hinit). }
  exists E. split; [done|]. intros i Hi. split; [|apply zeros_length].
  rewrite (Embedding_forward_lookup _ _ _ _ _ HE Hi).
  by eapply Embedding_init_padding_row.
Qed.

Lemma small_reader_embedding :
  Embedding_init 2 1 0 (λ _ _, 1) = Ok (embedding small_reader).
Proof. reflexivity. Qed.

Lemma padding_token_embeds_to_zero_witness :
  ∃ E,
    Embedding_forward
      (embedding
         (run_calls no_dropout small_reader
            [ {| call_training := true; call_x1 := [1%nat; 0%nat];
                 call_x1_f := []; call_x1_mask := [false; true];
                 call_x2 := [1%nat]; call_x2_mask := [false] |} ]))
      [1%nat; 0%nat] = Ok E ∧
    ∀ i, [1%nat; 0%nat] !! i = Some 0%nat →
         E !! i = Some (zeros 1) ∧ length (zeros 1) = 1%nat.
Proof.
  apply (padding_token_embeds_to_zero no_dropout 2 1 (λ _ _, 1) small_reader).
  - exact small_reader_embedding.
  - repeat constructor.
Defined.

(** *** The exceptions of [forward] *)

(** A token that is no row of the weight of the embedding. *)
Definition out_of_vocabulary (self : FusionNetReader) (t : nat) : Prop :=
  (length (weight (embedding self)) <= t)%nat.

Lemma Embedding_forward_Raise (emb : Embedding) (x : list nat) :
  Exists (λ t, (length (weight emb) <= t)%nat) x →
  Embedding_forward emb x = Raise IndexError.
Proof.
  unfold Embedding_forward. induction x as [|t x IH]; intros Hx.
  { inversion Hx. }
  cbn [mapM]. destruct (weight emb !! t) as [v|] eqn:Hv; [|done].
  cbn [mbind result_bind].
  apply lookup_lt_Some in Hv.
  inversion_clear Hx as [? ? Ht|? ? Hx']; [lia|].
  by rewrite IH.
Qed.

Lemma Embedding_forward_Ok_inv (emb : Embedding) (x : list nat) : ∀ E,
  Embedding_forward emb x = Ok E →
  Forall (λ t, (t < length (weight emb))%nat) x.
Proof.
  unfold Embedding_forward. induction x as [|t x IH]; intros E; [constructor|].
  cbn [mapM]. destruct (weight emb !! t) as [v|] eqn:Hv; [|done].
  cbn [mbind result_bind]. destruct (mapM _ x) as [E'|] eqn:HE; [|done].
  intros _. constructor; [by eapply lookup_lt_Some|by eapply IH].
Qed.

Lemma Embedding_forward_length (emb : Embedding) (x : list nat) : ∀ E,
  Embedding_forward emb x = Ok E → length E = length x.
Proof.
  unfold Embedding_forward. induction x as [|t x IH]; intros E.
  { by intros [= <-]. }
  cbn [mapM]. destruct (weight emb !! t) as [v|]; [|done].
  cbn [mbind result_bind]. destruct (mapM _ x) as [E'|] eqn:HE; [|done].
  cbn [mbind result_bind mret result_ret]. intros [= <-].
  simpl. f_equal. by apply IH.
Qed.

Lemma Embedding_forward_error (emb : Embedding) (x : list nat) (e : error) :
  Embedding_forward emb x = Raise e → e = IndexError.
Proof.
  unfold Embedding_forward. induction x as [|t x IH]; [done|].
  cbn [mapM]. destruct (weight emb !! t) as [v|]; [|by intros [= <-]].
  cbn [mbind result_bind]. destruct (mapM _ x) as [E'|e']; [done|].
  cbn [mbind result_bind]. intros [= <-]. by apply IH.
Qed.

(** X16: a token of the document or of the question that is no row of the
embedding makes [forward] raise [IndexError], whatever the rest of the
input and of the module. *)
Theorem forward_out_of_vocabulary dropout self training
    x1 x1_f x1_mask x2 x2_mask :
  Exists (out_of_vocabulary self) (x1 ++ x2) →
  forward dropout self training x1 x1_f x1_mask x2 x2_mask = Raise IndexError.
Proof.
  intros [H1|H2]%Exists_app; unfold forward.
  - by rewrite (Embedding_forward_Raise _ _ H1).
  - rewrite (Embedding_forward_Raise _ _ H2).
    destruct (Embedding_forward _ x1) as [w1|e] eqn:E1; [done|].
    by rewrite (Embedding_forward_error _ _ _ E1).
Qed.

Lemma forward_out_of_vocabulary_witness :
  forward no_dropout small_reader false
    [1%nat; 0%nat] [] [false; true] [2%nat] [false] = Raise IndexError.
Proof.
  apply (forward_out_of_vocabulary no_dropout small_reader false).
  apply Exists_app. right. constructor. unfold out_of_vocabulary. simpl. lia.
Defined.

(** X17: [forward] returns only if every token is a row of the embedding,
the module has a CoVe encoder and, when [use_qemb] is set, a
question-embedding layer. *)
Theorem forward_returns_only_if dropout self training
    x1 x1_f x1_mask x2 x2_mask (r : option (vec * vec)) :
  forward dropout self training x1 x1_f x1_mask x2 x2_mask = Ok r →
  Forall (λ t, ¬ out_of_vocabulary self t) (x1 ++ x2) ∧
  is_Some (cove_encoder self) ∧
  (use_qemb (args self) = true → is_Some (qemb_match self)).
Proof.
  unfold out_of_vocabulary. intros Hr. apply forward_Ok in Hr.
  destruct Hr as (w1 & w2 & cove & qemb & H1 & H2 & Hc & Hq & _).
  split; [|split].
  - apply Forall_app. split.
    + eapply Forall_impl; [exact (Embedding_forward_Ok_inv _ _ _ H1)|].
      intros t Ht Hn. simpl in Ht. lia.
    + eapply Forall_impl; [exact (Embedding_forward_Ok_inv _ _ _ H2)|].
      intros t Ht Hn. simpl in Ht. lia.
  - by rewrite Hc.
  - intros Hu. unfold attached_qemb in Hq. rewrite Hu in Hq.
    destruct Hq as (q & -> & _). by eexists.
Qed.

Lemma forward_returns_only_if_witness :
  Forall (λ t, ¬ out_of_vocabulary small_reader t)
    ([1%nat; 0%nat] ++ [1%nat]) ∧
  is_Some (cove_encoder small_reader) ∧
  (use_qemb (args small_reader) = true → is_Some (qemb_match small_reader)).
Proof.
  apply (forward_returns_only_if no_dropout small_reader false
           [1%nat; 0%nat] [] [false; true] [1%nat] [false]
           (scores no_dropout small_reader false [] [false; true] [false]
              [[1]; [0]] [[1]] const_cove None)).
  reflexivity.
Defined.

(** *** The span distributions *)

(** The shape contract of the layers of a module, for the attributes that
[forward] reads. *)
Definition module_keeps_length (dropout : nat → R → bool → vseq → vseq)
    (self : FusionNetReader) : Prop :=
  ∀ cove qemb,
    cove_encoder self = Some cove → attached_qemb self qemb →
    layers_keep_length dropout self cove qemb.

(** X18: in inference mode, for a document and a question that have a token
that is not padding each, what [forward] returns, when it raises nothing,
is a pair of numbers, not [NaN], and the start and the end scores are
distributions over the document positions: one entry for every position,
every entry between 0 and 1, 0 at the padding positions, and the entries of
the other positions sum to 1. *)
Theorem forward_inference_distributions dropout self
    x1 x1_f x1_mask x2 x2_mask (r : option (vec * vec)) :
  module_keeps_length dropout self →
  ((0 < num_features (args self))%nat → length x1_f = length x1) →
  length x1_mask = length x1 →
  some_valid (length x1) x1_mask →
  some_valid (length x2) x2_mask →
  forward dropout self false x1 x1_f x1_mask x2 x2_mask = Ok r →
  ∃ s e,
    r = Some (s, e) ∧
    ∀ d, d = s ∨ d = e →
      length d = length x1 ∧
      Rsum (valid d x1_mask) = 1 ∧
      ∀ i p, d !! i = Some p →
             0 <= p <= 1 ∧ (x1_mask !! i = Some true → p = 0).
Proof.
  intros K Hf Hlen Hd Hq Hfw. apply forward_Ok in Hfw.
  destruct Hfw as (w1 & w2 & cove & qemb & H1 & H2 & Hc & Hqe & ->).
  apply Embedding_forward_length in H1, H2. rewrite <- H1 in *.
  rewrite <- H2 in *. specialize (K cove qemb Hc Hqe).
  destruct (scores_defined dropout self false x1_f x1_mask x2_mask
              w1 w2 cove qemb K Hf Hq Hd) as (s & e & Hs & He & ->).
  exists s, e. split; [done|]. intros d Hde.
  apply (span_distribution dropout self false x1_f x1_mask x2_mask
           w1 w2 cove qemb d K Hf Hd Hlen).
  destruct Hde as [->| ->]; auto.
Qed.

Lemma small_reader_module_keeps_length :
  module_keeps_length no_dropout small_reader.
Proof.
  intros cove qemb [= <-] Hq. unfold attached_qemb in Hq. simpl in Hq.
  subst qemb. exact small_reader_keeps_length.
Qed.

Lemma forward_inference_distributions_witness :
  ∃ s e,
    Some ([1; 0], [1; 0]) = Some (s, e) ∧
    ∀ d, d = s ∨ d = e →
      length d = length [1%nat; 0%nat] ∧
      Rsum (valid d [false; true]) = 1 ∧
      ∀ i p, d !! i = Some p →
             0 <= p <= 1 ∧ (([false; true] : mask) !! i = Some true → p = 0).
Proof.
  apply (forward_inference_distributions no_dropout small_reader
           [1%nat; 0%nat] [] [false; true] [1%nat] [false]).
  - exact small_reader_module_keeps_length.
  - simpl. lia.
  - reflexivity.
  - exists 0%nat. split; [simpl; lia|reflexivity].
  - exists 0%nat. split; [simpl; lia|reflexivity].
  - exact (small_reader_forward false).
Defined.

Lemma ln_eps_monotone (p q : R) :
  0 <= p → p <= q → ln (p + 1e-8) <= ln (q + 1e-8).
Proof.
  intros Hp Hpq.
  destruct (Req_dec_T p q) as [->|Hne]; [lra|].
  left. apply ln_increasing; lra.
Qed.

(** X19: in training mode, under the same conditions, what [forward]
returns, when it raises nothing, is a pair of numbers, and every score lies
between [ln(1e-8)] and [ln(1 + 1e-8)], and is [ln(1e-8)] at the padding
positions of the document: a finite number where the logarithm of the
probability would be [-inf]. *)
Theorem forward_training_scores dropout self
    x1 x1_f x1_mask x2 x2_mask (r : option (vec * vec)) :
  module_keeps_length dropout self →
  ((0 < num_features (args self))%nat → length x1_f = length x1) →
  length x1_mask = length x1 →
  some_valid (length x1) x1_mask →
  some_valid (length x2) x2_mask →
  forward dropout self true x1 x1_f x1_mask x2 x2_mask = Ok r →
  ∃ s e,
    r = Some (s, e) ∧
    ∀ d, d = s ∨ d = e →
      length d = length x1 ∧
      ∀ i p, d !! i = Some p →
             ln (0 + 1e-8) <= p <= ln (1 + 1e-8) ∧
             (x1_mask !! i = Some true → p = ln (0 + 1e-8)).
Proof.
  intros K Hf Hlen Hd Hq Hfw. apply forward_Ok in Hfw.
  destruct Hfw as (w1 & w2 & cove & qemb & H1 & H2 & Hc & Hqe & ->).
  apply Embedding_forward_length in H1, H2. rewrite <- H1 in *.
  rewrite <- H2 in *. specialize (K cove qemb Hc Hqe).
  destruct (scores_defined dropout self true x1_f x1_mask x2_mask
              w1 w2 cove qemb K Hf Hq Hd) as (s & e & Hs & He & ->).
  exists (log_eps <$> s), (log_eps <$> e). split; [done|]. intros d Hde.
  assert (∃ q, d = log_eps <$> q ∧
               (start_scores dropout self true x1_f x1_mask x2_mask
                  w1 w2 cove qemb = Some q ∨
                end_scores dropout self true x1_f x1_mask x2_mask
                  w1 w2 cove qemb = Some q)) as (q & -> & Hq').
  { destruct Hde as [->| ->]; eexists; split; eauto. }
  destruct (span_distribution dropout self true x1_f x1_mask x2_mask
              w1 w2 cove qemb q K Hf Hd Hlen Hq') as (Hl & _ & Hp).
  split; [by rewrite length_fmap|].
  intros i p Hi. rewrite list_lookup_fmap in Hi.
  destruct (q !! i) as [p0|] eqn:Hp0; [|done]. injection Hi as <-.
  destruct (Hp i p0 Hp0) as [[H0 H1'] Hpad]. unfold log_eps.
  split.
  - split; apply ln_eps_monotone; lra.
  - intros Hm. by rewrite (Hpad Hm).
Qed.

Lemma forward_training_scores_witness :
  ∃ s e,
    Some (log_eps <$> [1; 0], log_eps <$> [1; 0]) = Some (s, e) ∧
    ∀ d, d = s ∨ d = e →
      length d = length [1%nat; 0%nat] ∧
      ∀ i p, d !! i = Some p →
             ln (0 + 1e-8) <= p <= ln (1 + 1e-8) ∧
             (([false; true] : mask) !! i = Some true → p = ln (0 + 1e-8)).
Proof.
  apply (forward_training_scores no_dropout small_reader
           [1%nat; 0%nat] [] [false; true] [1%nat] [false]).
  - exact small_reader_module_keeps_length.
  - simpl. lia.
  - reflexivity.
  - exists 0%nat. split; [simpl; lia|reflexivity].
  - exists 0%nat. split; [simpl; lia|reflexivity].
  - exact (small_reader_forward true).
Defined.

(** *** Sequences of padding only *)

(** A mask that has positions, all of them padding. *)
Definition all_padding (m : mask) : Prop :=
  m ≠ [] ∧ Forall (λ p : bool, p = true) m.

(** X22: when the document and the question have tokens and, in one of
them, all are padding, a softmax of the pass runs over a row without a
valid position: what [forward] returns, when it raises nothing, is [NaN]. *)
Theorem forward_all_padding_nan dropout self training
    x1 x1_f x1_mask x2 x2_mask (r : option (vec * vec)) :
  module_keeps_length dropout self →
  ((0 < num_features (args self))%nat → length x1_f = length x1) →
  x1 ≠ [] → x2 ≠ [] →
  all_padding x1_mask ∨ all_padding x2_mask →
  forward dropout self training x1 x1_f x1_mask x2 x2_mask = Ok r →
  r = None.
Proof.
  intros K Hf Hx1 Hx2 Hpad Hfw. apply forward_Ok in Hfw.
  destruct Hfw as (w1 & w2 & cove & qemb & H1 & H2 & Hc & Hqe & ->).
  apply Embedding_forward_length in H1, H2. rewrite <- H1 in *.
  specialize (K cove qemb Hc Hqe).
  assert (Hs : start_scores dropout self training x1_f x1_mask x2_mask
                 w1 w2 cove qemb = None);
    [|unfold scores; by rewrite Hs].
  unfold start_scores.
  destruct (understanding_doc_hiddens _ _ _ _ _ _ _ _ _ _) as [H|] eqn:EH;
    [|done].
  cbn [mbind option_bind].
  destruct Hpad as [(Hm & Hall)|(Hm & Hall)].
  - destruct (question_hidden _ _ _ _ _ _) as [q|]; [|done].
    cbn [mbind option_bind]. apply masked_softmax_nan; try done.
    pose proof (understanding_doc_hiddens_length _ _ _ _ _ _ _ _ _ _ H K Hf EH)
      as Hlen.
    intros Hb. apply (f_equal length) in Hb.
    rewrite bilinear_scores_length, Hlen in Hb.
    destruct x1; [done|]. destruct w1; simpl in *; lia.
  - unfold question_hidden, q_merge_weights, LinearSeqAttn_forward.
    rewrite masked_softmax_nan; try done.
    pose proof (understanding_question_hiddens_length dropout self training
                  x2_mask w2 cove qemb K) as Hlen.
    intros Hb. apply (f_equal length) in Hb.
    rewrite length_fmap, Hlen, H2 in Hb.
    destruct x2; [done|]. simpl in Hb. lia.
Qed.

Lemma small_reader_all_padding_document :
  forward no_dropout small_reader false [0%nat] [] [true] [1%nat] [false]
  = Ok None.
Proof.
  unfold forward. cbn [Embedding_forward mapM embedding small_reader weight
    lookup list_lookup mbind result_bind mret result_ret getattr
    cove_encoder use_qemb args].
  f_equal. eval_small_reader. eval_rows. reflexivity.
Qed.

Lemma forward_all_padding_nan_witness :
  all_padding [true] ∧
  forward no_dropout small_reader false [0%nat] [] [true] [1%nat] [false]
  = Ok None ∧
  @None (vec * vec) = None.
Proof.
  assert (Hpad : all_padding [true]).
  { split; [done|]. by repeat constructor. }
  split; [exact Hpad|]. split; [exact small_reader_all_padding_document|].
  apply (forward_all_padding_nan no_dropout small_reader false
           [0%nat] [] [true] [1%nat] [false] None).
  - exact small_reader_module_keeps_length.
  - simpl. lia.
  - done.
  - done.
  - by left.
  - exact small_reader_all_padding_document.
Defined.

(** *** Dropout on the embeddings *)

(** X20: with a rate of the embedding dropout that is not positive,
[F.dropout] is not called on the embeddings: [forward] returns the same
for any two dropout functions. *)
Theorem forward_without_embedding_dropout dropout dropout' self training
    x1 x1_f x1_mask x2 x2_mask :
  dropout_emb (args self) <= 0 →
  forward dropout self training x1 x1_f x1_mask x2 x2_mask
  = forward dropout' self training x1 x1_f x1_mask x2 x2_mask.
Proof.
  intros Hp.
  assert (Hemb : ∀ k x, dropout_embeddings dropout self training k x
                        = dropout_embeddings dropout' self training k x).
  { intros k x. unfold dropout_embeddings.
    destruct (Rlt_dec _ _); [lra|done]. }
  assert (Hs : ∀ w1 w2 cove qemb,
    scores dropout self training x1_f x1_mask x2_mask w1 w2 cove qemb
    = scores dropout' self training x1_f x1_mask x2_mask w1 w2 cove qemb).
  { intros w1 w2 cove qemb.
    unfold scores, end_scores, memory_hidden, gru_input, start_scores,
      question_hidden, q_merge_weights,
      understanding_doc_hiddens, self_boosted_vectors, history_of_doc_word2,
      fa_multi_level_doc_hiddens, understanding_doc_question_vectors,
      high_level_doc_question_vectors, low_level_doc_question_vectors,
      history_of_question_word, history_of_doc_word,
      understanding_question_hiddens, high_level_question_hiddens,
      high_level_doc_hiddens, low_level_question_hiddens,
      low_level_doc_hiddens, drnn_input, x1_emb, x2_emb.
    by rewrite !Hemb. }
  unfold forward.
  destruct (Embedding_forward _ x1) as [w1|]; [|done].
  destruct (Embedding_forward _ x2) as [w2|]; [|done].
  destruct (cove_encoder self) as [cove|]; [|done].
  cbn [mbind result_bind getattr].
  destruct (use_qemb (args self)).
  - destruct (qemb_match self) as [q|]; [|done].
    cbn [mbind result_bind getattr]. by rewrite Hs.
  - cbn [mbind result_bind]. by rewrite Hs.
Qed.

Lemma forward_without_embedding_dropout_witness :
  forward no_dropout small_reader true
    [1%nat; 0%nat] [] [false; true] [1%nat] [false]
  = forward (λ _ _ _ _, []) small_reader true
      [1%nat; 0%nat] [] [false; true] [1%nat] [false].
Proof.
  apply (forward_without_embedding_dropout no_dropout (λ _ _ _ _, [])
           small_reader true).
  simpl. lra.
Defined.

(** *** The shape of the word embeddings *)

Lemma Embedding_init_rows n d k init (emb : Embedding) :
  Embedding_init n d k init = Ok emb →
  Forall (λ v, length v = d) (weight emb).
Proof.
  unfold Embedding_init. case_decide as Hk; [|done]. intros [= <-].
  cbn [weight]. apply Forall_insert; [|apply zeros_length].
  apply Forall_fmap, Forall_true. intros i. simpl.
  by rewrite length_fmap, length_seq.
Qed.

(** X21: the embedding of a sequence of tokens, when the lookup returns, has
one vector for every token, each of dimension [embedding_dim]. *)
Theorem Embedding_forward_shape n d k init (emb : Embedding)
    (x : list nat) (E : vseq) :
  Embedding_init n d k init = Ok emb →
  Embedding_forward emb x = Ok E →
  length E = length x ∧ Forall (λ v, length v = d) E.
Proof.
  intros Hi HE. split; [by eapply Embedding_forward_length|].
  pose proof (Embedding_init_rows _ _ _ _ _ Hi) as Hrows.
  apply Forall_lookup. intros i v Hv.
  assert (∃ t, x !! i = Some t) as [t Ht].
  { apply lookup_lt_is_Some. rewrite <- (Embedding_forward_length _ _ _ HE).
    by eapply lookup_lt_Some. }
  rewrite (Embedding_forward_lookup _ _ _ _ _ HE Ht) in Hv.
  by eapply Forall_lookup_1 in Hrows.
Qed.

Lemma Embedding_forward_shape_witness :
  length [[1]; [0]] = length [1%nat; 0%nat] ∧
  Forall (λ v : vec, length v = 1%nat) [[1]; [0]].
Proof.
  apply (Embedding_forward_shape 2 1 0 (λ _ _, 1) (embedding small_reader)
           [1%nat; 0%nat] [[1]; [0]]).
  - exact small_reader_embedding.
  - reflexivity.
Defined.

End Reader.
